(** * The formant-synthesis parameter model of the vowel synthesizer

    A shallow embedding of [VowelSynthesizerCore] (the React widget source
    that follows the Astro configuration in [astro.config.mjs]): the vowel
    catalog [VOWELS], [interpolateFormants], [scaleFormantsForGender],
    [calculateBandwidth], [updateVowel] and the setters.

    JavaScript numbers are IEEE-754 doubles.  The program is written once,
    over an interface [Number] of the arithmetic it uses, and read at two
    instances:
    - [float_Number]: the kernel's binary64 floats, on which every definition
      below evaluates (the numbers the browser computes);
    - [R_Number]: exact real arithmetic, the reading in which most
      properties are stated and proved.  What rounding breaks (an identity
      between quotients, a tie between distances, a sum that is exactly
      one) is stated up to a tolerance, or over the interface itself, so
      that the statement reads on binary64 as well; the runs at the end
      check it there.  A quotient by zero is not a real number: division
      reports [Err NotFinite] there.  It stands for the run in which
      JavaScript goes on with [NaN] or [Infinity] and hands it to the host,
      whose automation methods, when they conform to Web IDL, reject a
      value that is not finite by raising a [TypeError]. *)

From Stdlib Require Import List ZArith QArith Bool String.
From Stdlib Require Import Reals Lra Psatz.
From Stdlib Require Import Floats Uint63.
From Stdlib Require Import Permutation.
Import ListNotations.

Set Implicit Arguments.

(** ** Results of a run *)

(** [NotFinite]: an operation produced no number of the model (JavaScript
    continues with [Infinity] or [NaN]).  [TypeError]: a property was read
    from [undefined] or [null]. *)
Inductive error : Type := NotFinite | TypeError.

Inductive result (A : Type) : Type :=
| Ok (a : A)
| Err (e : error).
Arguments Ok {A} a.
Arguments Err {A} e.

Definition bind {A B : Type} (m : result A) (k : A -> result B) : result B :=
  match m with
  | Ok a => k a
  | Err e => Err e
  end.

Declare Scope run_scope.
Delimit Scope run_scope with run.
Notation "x <- m ;; k" := (bind m (fun x => k))
  (at level 61, m at next level, right associativity) : run_scope.
Open Scope run_scope.

Fixpoint mapM {A B : Type} (f : A -> result B) (l : list A) : result (list B) :=
  match l with
  | [] => Ok []
  | a :: l' => b <- f a ;; bs <- mapM f l' ;; Ok (b :: bs)
  end.

Fixpoint foldM {A B : Type} (f : B -> A -> result B) (l : list A) (b : B) : result B :=
  match l with
  | [] => Ok b
  | a :: l' => b' <- f b a ;; foldM f l' b'
  end.

(** [arr[i]] where the element is dereferenced afterwards. *)
Definition item {A : Type} (l : list A) (i : nat) : result A :=
  match nth_error l i with
  | Some a => Ok a
  | None => Err TypeError
  end.

(** [arr[i]] where the element is used as a number ([undefined] becomes [NaN]). *)
Definition elem {A : Type} (l : list A) (i : nat) : result A :=
  match nth_error l i with
  | Some a => Ok a
  | None => Err NotFinite
  end.

(** ** The arithmetic the program uses *)

Class Number (num : Type) : Type := {
  lit : Q -> num;                       (* a decimal literal of the source *)
  num_add : num -> num -> num;
  num_sub : num -> num -> num;
  num_mul : num -> num -> num;
  num_div : num -> num -> result num;
  num_sqrt : num -> num;                (* Math.sqrt *)
  num_ltb : num -> num -> bool;
  num_leb : num -> num -> bool
}.

Declare Scope num_scope.
Delimit Scope num_scope with num.
Notation "a + b" := (num_add a b) : num_scope.
Notation "a - b" := (num_sub a b) : num_scope.
Notation "a * b" := (num_mul a b) : num_scope.
Notation "a / b" := (num_div a b) : num_scope.
Notation "a <? b" := (num_ltb a b) : num_scope.
Notation "a <=? b" := (num_leb a b) : num_scope.

(** Exact reals.  [Math.sqrt] is only ever applied to a sum of two squares. *)
Definition R_lit (q : Q) : R := Q2R q.
Definition R_div (a b : R) : result R :=
  if Req_dec_T b 0%R then Err NotFinite else Ok (a / b)%R.
Definition R_ltb (a b : R) : bool := if Rlt_dec a b then true else false.
Definition R_leb (a b : R) : bool := if Rle_dec a b then true else false.

#[export] Instance R_Number : Number R := {|
  lit := R_lit;
  num_add := Rplus;
  num_sub := Rminus;
  num_mul := Rmult;
  num_div := R_div;
  num_sqrt := R_sqrt.sqrt;
  num_ltb := R_ltb;
  num_leb := R_leb
|}.

(** Binary64.  The quotient of two small integers is correctly rounded, which
    is the value the literal denotes. *)
Definition float_lit (q : Q) : float :=
  PrimFloat.div (PrimFloat.of_uint63 (Uint63.of_Z (Qnum q)))
                (PrimFloat.of_uint63 (Uint63.of_Z (Zpos (Qden q)))).

#[export] Instance float_Number : Number float := {|
  lit := float_lit;
  num_add := PrimFloat.add;
  num_sub := PrimFloat.sub;
  num_mul := PrimFloat.mul;
  num_div := fun a b => Ok (PrimFloat.div a b);
  num_sqrt := PrimFloat.sqrt;
  num_ltb := PrimFloat.ltb;
  num_leb := PrimFloat.leb
|}.

(** ** The program *)

Section Program.

Context {num : Type} `{Number num}.
Local Open Scope num_scope.

(** [Array.prototype.sort(comparefn)]: a stable sort (ECMAScript 2019); an
    element [a] moves behind a later element [b] exactly when
    [comparefn(a, b) > 0], so elements that compare equal keep their order. *)
Fixpoint insert {A : Type} (comparefn : A -> A -> num) (a : A) (l : list A) : list A :=
  match l with
  | [] => [a]
  | b :: l' =>
      if lit 0 <? comparefn a b then b :: insert comparefn a l' else a :: l
  end.

Definition sort {A : Type} (comparefn : A -> A -> num) (l : list A) : list A :=
  fold_right (insert comparefn) [] l.

(** Vowel data with formants and positions *)
Record VowelData : Type := {
  formants : list num;
  pos : num * num
}.

Definition VOWELS : list (string * VowelData) := [
  ("i"%string, {| formants := [lit 270; lit 2290; lit 3010]; pos := (lit 0.9, lit 0.9) |});   (* "beet" *)
  ("I"%string, {| formants := [lit 390; lit 1990; lit 2550]; pos := (lit 0.85, lit 0.75) |}); (* "bit" *)
  ("e"%string, {| formants := [lit 530; lit 1840; lit 2480]; pos := (lit 0.8, lit 0.6) |});   (* "bait" *)
  ("ɛ"%string, {| formants := [lit 660; lit 1720; lit 2410]; pos := (lit 0.7, lit 0.4) |});   (* "bet" *)
  ("æ"%string, {| formants := [lit 860; lit 1550; lit 2410]; pos := (lit 0.7, lit 0.2) |});   (* "bat" *)
  ("ə"%string, {| formants := [lit 490; lit 1350; lit 1690]; pos := (lit 0.5, lit 0.5) |});   (* "about" *)
  ("ɑ"%string, {| formants := [lit 730; lit 1090; lit 2440]; pos := (lit 0.4, lit 0.15) |});  (* "bot" *)
  ("ɔ"%string, {| formants := [lit 570; lit 840; lit 2410]; pos := (lit 0.3, lit 0.35) |});   (* "bought" *)
  ("o"%string, {| formants := [lit 450; lit 870; lit 2410]; pos := (lit 0.2, lit 0.55) |});   (* "boat" *)
  ("u"%string, {| formants := [lit 300; lit 870; lit 2240]; pos := (lit 0.1, lit 0.9) |});    (* "boot" *)
  ("ʊ"%string, {| formants := [lit 440; lit 1020; lit 2240]; pos := (lit 0.15, lit 0.75) |})  (* "book" *)
].

(** The objects [{ name, data, dist }] pushed on [distances]. *)
Record Entry : Type := {
  name : string;
  data : VowelData;
  dist : num
}.

Definition distances (x y : num) : list Entry :=
  map (fun nd : string * VowelData =>
         let dx := fst (pos (snd nd)) - x in
         let dy := snd (pos (snd nd)) - y in
         {| name := fst nd; data := snd nd; dist := num_sqrt (dx * dx + dy * dy) |})
      VOWELS.

Definition nearest (x y : num) : list Entry :=
  firstn 3 (sort (fun a b => dist a - dist b) (distances x y)).

Definition weights (x y : num) : result (list num) :=
  mapM (fun v => lit 1.0 / (dist v + lit 0.01)) (nearest x y).

(** [totalWeight] once the callback of [nearest.map] has run on every element. *)
Definition totalWeight (ws : list num) : num :=
  fold_left num_add ws (lit 0).

Definition normalizedWeights (x y : num) : result (list num) :=
  ws <- weights x y ;;
  mapM (fun w => w / totalWeight ws) ws.

Definition interpolateFormants (x y : num) : result (list num) :=
  nw <- normalizedWeights x y ;;
  mapM (fun i =>
          foldM (fun acc j =>
                   v <- item (nearest x y) j ;;
                   f <- elem (formants (data v)) i ;;
                   n <- elem nw j ;;
                   Ok (acc + f * n))
                (seq 0 3) (lit 0))
       (seq 0 3).

Definition scaleFormantsForGender (fs : list num) (genderFactor : num) : list num :=
  let scale :=
    if genderFactor <=? lit 1.0
    then lit 1.0 + lit 0.18 * genderFactor
    else lit 1.18 + lit 0.25 * (genderFactor - lit 1.0) in
  map (fun f => f * scale) fs.

Definition calculateBandwidth (formantFreq qualityFactor : num) : num :=
  let baseBW := formantFreq * lit 0.08 in
  let mult :=
    if lit 0 <=? qualityFactor
    then lit 1.0 + lit 0.5 * qualityFactor
    else lit 1.0 + lit 0.3 * qualityFactor in
  baseBW * mult.

(** *** The synthesizer object and the host audio graph *)

(** Nodes of the host's audio graph are handles; the model never looks inside
    them.  What the program does to the graph is the list of automation calls
    it makes on the nodes' parameters. *)
Definition node : Type := nat.

Inductive param : Type :=
| Frequency (n : node)      (* oscillator.frequency, filter.frequency *)
| QParam (n : node)         (* filter.Q *)
| Gain (n : node).          (* masterGain.gain *)

Inductive call : Type :=
| setTargetAtTime (p : param) (target startTime timeConstant : num)
| setValueAtTime (p : param) (value startTime : num).

Record AudioContext : Type := {
  currentTime : num
}.

(** The fields the modelled methods read or write ([preGain], [analyser] and
    [waveformBuffer] are touched by [start] and the drawing code only). *)
Record VowelSynthesizerCore : Type := {
  audioContext : option AudioContext;
  oscillator : option node;
  filters : list node;
  masterGain : option node;
  isRunning : bool;
  vowelX : num;
  vowelY : num;
  genderFactor : num;
  qualityFactor : num;
  volume : num
}.

(** The field initialisers of the class. *)
Definition initial : VowelSynthesizerCore := {|
  audioContext := None;
  oscillator := None;
  filters := [];
  masterGain := None;
  isRunning := false;
  vowelX := lit 0.5;
  vowelY := lit 0.5;
  genderFactor := lit 0.0;
  qualityFactor := lit 0.0;
  volume := lit 25
|}.

(** A method returns the object it leaves and the calls it made on the host;
    the calls of a run that raises are not recorded. *)
Definition method : Type := result (VowelSynthesizerCore * list call).

Definition updateVowel (this : VowelSynthesizerCore) : method :=
  match isRunning this, audioContext this with
  | true, Some ctx =>
      fs <- interpolateFormants (vowelX this) (vowelY this) ;;
      let fs := scaleFormantsForGender fs (genderFactor this) in
      let now := currentTime ctx in
      calls <- mapM (fun i =>
                       freq <- elem fs i ;;
                       let bw := calculateBandwidth freq (qualityFactor this) in
                       Q <- freq / bw ;;
                       filter <- item (filters this) i ;;
                       Ok [setTargetAtTime (Frequency filter) freq now (lit 0.02);
                           setTargetAtTime (QParam filter) Q now (lit 0.02)])
                    (seq 0 3) ;;
      Ok (this, List.concat calls)
  | _, _ => Ok (this, [])
  end.

Definition setPitch (this : VowelSynthesizerCore) (f0 : num) : method :=
  match isRunning this, oscillator this, audioContext this with
  | true, Some osc, Some ctx =>
      let now := currentTime ctx in
      Ok (this, [setTargetAtTime (Frequency osc) f0 now (lit 0.02)])
  | _, _, _ => Ok (this, [])
  end.

Definition set_vowelXY (this : VowelSynthesizerCore) (x y : num) : VowelSynthesizerCore := {|
  audioContext := audioContext this;
  oscillator := oscillator this;
  filters := filters this;
  masterGain := masterGain this;
  isRunning := isRunning this;
  vowelX := x;
  vowelY := y;
  genderFactor := genderFactor this;
  qualityFactor := qualityFactor this;
  volume := volume this
|}.

Definition set_genderFactor (this : VowelSynthesizerCore) (g : num) : VowelSynthesizerCore := {|
  audioContext := audioContext this;
  oscillator := oscillator this;
  filters := filters this;
  masterGain := masterGain this;
  isRunning := isRunning this;
  vowelX := vowelX this;
  vowelY := vowelY this;
  genderFactor := g;
  qualityFactor := qualityFactor this;
  volume := volume this
|}.

Definition set_qualityFactor (this : VowelSynthesizerCore) (q : num) : VowelSynthesizerCore := {|
  audioContext := audioContext this;
  oscillator := oscillator this;
  filters := filters this;
  masterGain := masterGain this;
  isRunning := isRunning this;
  vowelX := vowelX this;
  vowelY := vowelY this;
  genderFactor := genderFactor this;
  qualityFactor := q;
  volume := volume this
|}.

Definition set_volume (this : VowelSynthesizerCore) (v : num) : VowelSynthesizerCore := {|
  audioContext := audioContext this;
  oscillator := oscillator this;
  filters := filters this;
  masterGain := masterGain this;
  isRunning := isRunning this;
  vowelX := vowelX this;
  vowelY := vowelY this;
  genderFactor := genderFactor this;
  qualityFactor := qualityFactor this;
  volume := v
|}.

Definition setVowelPosition (this : VowelSynthesizerCore) (x y : num) : method :=
  updateVowel (set_vowelXY this x y).

Definition setGender (this : VowelSynthesizerCore) (factor : num) : method :=
  updateVowel (set_genderFactor this factor).

Definition setQuality (this : VowelSynthesizerCore) (factor : num) : method :=
  updateVowel (set_qualityFactor this factor).

Definition setVolume (this : VowelSynthesizerCore) (vol : num) : method :=
  let this := set_volume this vol in
  match isRunning this, masterGain this, audioContext this with
  | true, Some gain, Some ctx =>
      let now := currentTime ctx in
      Ok (this, [setValueAtTime (Gain gain) vol now])
  | _, _, _ => Ok (this, [])
  end.

(** *** What the host's filter stages receive *)

(** The (frequency, Q) pairs of a run of [updateVowel], read off its calls:
    each filter is sent its centre frequency and then its Q. *)
Fixpoint formantOutput (calls : list call) : list (num * num) :=
  match calls with
  | setTargetAtTime (Frequency _) freq _ _ :: setTargetAtTime (QParam _) q _ _ :: rest =>
      (freq, q) :: formantOutput rest
  | _ => []
  end.

(** The control values a recompute pass reads. *)
Definition controlState (this : VowelSynthesizerCore) : num * num * num * num :=
  (vowelX this, vowelY this, genderFactor this, qualityFactor this).

(** What [start] establishes before it sets [isRunning]: an audio context,
    the oscillator, three filters and the master gain. *)
Definition started (this : VowelSynthesizerCore) : Prop :=
  isRunning this = true /\
  audioContext this <> None /\
  oscillator this <> None /\
  List.length (filters this) = 3%nat /\
  masterGain this <> None.

(** A running synthesizer, with the node handles in creation order. *)
Definition running (now x y g q vol : num) : VowelSynthesizerCore := {|
  audioContext := Some {| currentTime := now |};
  oscillator := Some 0%nat;
  filters := [2%nat; 3%nat; 4%nat];
  masterGain := Some 5%nat;
  isRunning := true;
  vowelX := x;
  vowelY := y;
  genderFactor := g;
  qualityFactor := q;
  volume := vol
|}.

End Program.

Arguments VowelData : clear implicits.
Arguments Entry : clear implicits.
Arguments call : clear implicits.
Arguments AudioContext : clear implicits.
Arguments VowelSynthesizerCore : clear implicits.
Arguments method : clear implicits.

(** ** The life cycle of the synthesizer and the component around it *)

Section Lifecycle.

Context {num : Type} `{Number num}.
Local Open Scope num_scope.

(** What the program does to the host and to the page, in order.  Calls of
    the component's drawing functions are recorded as events, as is the alert
    it raises. *)
Inductive event : Type :=
| NewAudioContext
| CreateOscillator (n : node)
| CreateGain (n : node)
| CreateBiquadFilter (n : node)
| CreateAnalyser (n : node)
| SetType (n : node) (type : string)
| SetValue (p : param) (value : num)      (* param.value = value *)
| SetFftSize (n : node) (fftSize : Z)
| Connect (source destination : node)
| ConnectDestination (source : node)      (* connect(audioContext.destination) *)
| Start (n : node)                        (* oscillator.start() *)
| Stop (n : node)                         (* oscillator.stop() *)
| Close                                   (* audioContext.close() *)
| Automation (c : call num)
| StartWaveformAnimation
| StopWaveformAnimation
| Alert.

(** What a [catch] clause receives: a failure of the host's constructor, or
    an error of the program's own computation. *)
Inductive exception : Type :=
| HostError
| Thrown (e : error).

(** The whole object: the fields of [VowelSynthesizerCore] read by the
    parameter model, and those only [start] assigns. *)
Record VowelSynthesizerObject : Type := {
  core : VowelSynthesizerCore num;
  preGain : option node;
  analyser : option node
}.

Definition constructed : VowelSynthesizerObject :=
  {| core := initial; preGain := None; analyser := None |}.

Definition set_isRunning (this : VowelSynthesizerCore num) (b : bool) : VowelSynthesizerCore num := {|
  audioContext := audioContext this;
  oscillator := oscillator this;
  filters := filters this;
  masterGain := masterGain this;
  isRunning := b;
  vowelX := vowelX this;
  vowelY := vowelY this;
  genderFactor := genderFactor this;
  qualityFactor := qualityFactor this;
  volume := volume this
|}.

(** [a.connect(b)] along a chain of nodes. *)
Fixpoint connect_chain (nodes : list node) : list event :=
  match nodes with
  | a :: ((b :: _) as rest) => Connect a b :: connect_chain rest
  | _ => []
  end.

(** The object once the [try] block of [start] has built the graph and set
    [isRunning]; the host numbers the nodes of a context in creation order. *)
Definition built (this : VowelSynthesizerObject) (ctx : AudioContext num) : VowelSynthesizerObject := {|
  core := {|
    audioContext := Some ctx;
    oscillator := Some 0%nat;
    filters := [2%nat; 3%nat; 4%nat];
    masterGain := Some 5%nat;
    isRunning := true;
    vowelX := vowelX (core this);
    vowelY := vowelY (core this);
    genderFactor := genderFactor (core this);
    qualityFactor := qualityFactor (core this);
    volume := volume (core this)
  |};
  preGain := Some 1%nat;
  analyser := Some 6%nat
|}.

(** The host calls of the [try] block of [start], up to [oscillator.start()]. *)
Definition build_events (this : VowelSynthesizerObject) : list event :=
  [NewAudioContext;
   CreateOscillator 0%nat; SetType 0%nat "sawtooth"%string;
   SetValue (Frequency 0%nat) (lit 120);
   CreateGain 1%nat; SetValue (Gain 1%nat) (lit 2.0)]
  ++ flat_map (fun filter =>
                 [CreateBiquadFilter filter; SetType filter "bandpass"%string;
                  SetValue (QParam filter) (lit 5.0)])
              [2%nat; 3%nat; 4%nat]
  ++ [CreateGain 5%nat; SetValue (Gain 5%nat) (volume (core this));
      CreateAnalyser 6%nat; SetFftSize 6%nat 2048%Z]
  ++ connect_chain [0%nat; 1%nat; 2%nat; 3%nat; 4%nat; 5%nat; 6%nat]
  ++ [ConnectDestination 6%nat; Start 0%nat].

(** [start]; [host] is what [new AudioContext()] yields, [None] when it
    throws.  The other host calls of the [try] block do not throw; when the
    recompute pass raises, the calls it made before are not recorded. *)
Definition start (this : VowelSynthesizerObject) (host : option (AudioContext num))
  : VowelSynthesizerObject * list event * option exception :=
  if isRunning (core this) then (this, [], None)
  else
    match host with
    | None =>
        ({| core := set_isRunning (core this) false;
            preGain := preGain this; analyser := analyser this |},
         [], Some HostError)
    | Some ctx =>
        let this := built this ctx in
        match updateVowel (core this) with
        | Ok (c, calls) =>
            ({| core := c; preGain := preGain this; analyser := analyser this |},
             build_events this ++ map Automation calls, None)
        | Err e =>
            ({| core := set_isRunning (core this) false;
                preGain := preGain this; analyser := analyser this |},
             build_events this, Some (Thrown e))
        end
    end.

Definition stop (this : VowelSynthesizerObject) : VowelSynthesizerObject * list event :=
  if negb (isRunning (core this)) then (this, [])
  else
    ({| core := set_isRunning (core this) false;
        preGain := preGain this; analyser := analyser this |},
     match oscillator (core this) with Some osc => [Stop osc] | None => [] end
     ++ match audioContext (core this) with Some _ => [Close] | None => [] end).

(** *** The component *)

(** The [useState] variables of the component. *)
Record Controls : Type := {
  ui_isRunning : bool;
  ui_vowelX : num;
  ui_vowelY : num;
  ui_gender : num;
  ui_quality : num;
  ui_pitch : num;
  ui_volume : num;
  ui_isDragging : bool
}.

Definition mounted : Controls := {|
  ui_isRunning := false;
  ui_vowelX := lit 50;
  ui_vowelY := lit 50;
  ui_gender := lit 0;
  ui_quality := lit 50;
  ui_pitch := lit 120;
  ui_volume := lit 50;
  ui_isDragging := false
|}.

Definition setIsRunning (ui : Controls) (b : bool) : Controls := {|
  ui_isRunning := b;
  ui_vowelX := ui_vowelX ui; ui_vowelY := ui_vowelY ui;
  ui_gender := ui_gender ui; ui_quality := ui_quality ui;
  ui_pitch := ui_pitch ui; ui_volume := ui_volume ui;
  ui_isDragging := ui_isDragging ui
|}.

Definition setVowelXY (ui : Controls) (x y : num) : Controls := {|
  ui_isRunning := ui_isRunning ui;
  ui_vowelX := x; ui_vowelY := y;
  ui_gender := ui_gender ui; ui_quality := ui_quality ui;
  ui_pitch := ui_pitch ui; ui_volume := ui_volume ui;
  ui_isDragging := ui_isDragging ui
|}.

Definition setGenderValue (ui : Controls) (value : num) : Controls := {|
  ui_isRunning := ui_isRunning ui;
  ui_vowelX := ui_vowelX ui; ui_vowelY := ui_vowelY ui;
  ui_gender := value; ui_quality := ui_quality ui;
  ui_pitch := ui_pitch ui; ui_volume := ui_volume ui;
  ui_isDragging := ui_isDragging ui
|}.

Definition setQualityValue (ui : Controls) (value : num) : Controls := {|
  ui_isRunning := ui_isRunning ui;
  ui_vowelX := ui_vowelX ui; ui_vowelY := ui_vowelY ui;
  ui_gender := ui_gender ui; ui_quality := value;
  ui_pitch := ui_pitch ui; ui_volume := ui_volume ui;
  ui_isDragging := ui_isDragging ui
|}.

Definition setPitchValue (ui : Controls) (value : num) : Controls := {|
  ui_isRunning := ui_isRunning ui;
  ui_vowelX := ui_vowelX ui; ui_vowelY := ui_vowelY ui;
  ui_gender := ui_gender ui; ui_quality := ui_quality ui;
  ui_pitch := value; ui_volume := ui_volume ui;
  ui_isDragging := ui_isDragging ui
|}.

Definition setVolumeValue (ui : Controls) (value : num) : Controls := {|
  ui_isRunning := ui_isRunning ui;
  ui_vowelX := ui_vowelX ui; ui_vowelY := ui_vowelY ui;
  ui_gender := ui_gender ui; ui_quality := ui_quality ui;
  ui_pitch := ui_pitch ui; ui_volume := value;
  ui_isDragging := ui_isDragging ui
|}.

(** [toggleAudio]: what it leaves of the component state and of the object,
    and what it did. *)
Definition toggleAudio (ui : Controls) (synth : VowelSynthesizerObject)
           (host : option (AudioContext num))
  : Controls * VowelSynthesizerObject * list event :=
  if negb (isRunning (core synth)) then
    match start synth host with
    | (synth, events, Some _) => (ui, synth, events ++ [Alert])
    | (synth, events, None) =>
        (* Set volume to match slider position *)
        match (vol <- ui_volume ui / lit 2 ;; setVolume (core synth) vol) with
        | Ok (c, calls) =>
            (setIsRunning ui true,
             {| core := c; preGain := preGain synth; analyser := analyser synth |},
             events ++ map Automation calls ++ [StartWaveformAnimation])
        | Err _ => (ui, synth, events ++ [Alert])
        end
    end
  else
    let (synth, events) := stop synth in
    (setIsRunning ui false, synth, events ++ [StopWaveformAnimation]).

(** A handler leaves the component state and the outcome of its call on the
    synthesizer. *)
Definition handleGenderChange (ui : Controls) (synth : VowelSynthesizerCore num) (value : num)
  : Controls * method num :=
  (setGenderValue ui value,
   g <- value / lit 100 ;; setGender synth g).

Definition handleQualityChange (ui : Controls) (synth : VowelSynthesizerCore num) (value : num)
  : Controls * method num :=
  (setQualityValue ui value,
   qualityFactor <- (value - lit 50) / lit 50 ;; setQuality synth qualityFactor).

Definition handlePitchChange (ui : Controls) (synth : VowelSynthesizerCore num) (value : num)
  : Controls * method num :=
  (setPitchValue ui value, setPitch synth value).

Definition handleVolumeChange (ui : Controls) (synth : VowelSynthesizerCore num) (value : num)
  : Controls * method num :=
  (setVolumeValue ui value,
   vol <- value / lit 2 ;; setVolume synth vol).

(** [Number.isNaN]: the only number that is not [<=] itself. *)
Definition isNaN (a : num) : bool := negb (a <=? a).

(** [Math.max] and [Math.min] of two numbers; of two zeros the sign decides,
    which their reciprocals tell apart. *)
Definition Math_max (a b : num) : num :=
  if isNaN a then a
  else if isNaN b then b
  else if a <? b then b
  else if b <? a then a
  else match lit 1 / a, lit 1 / b with
       | Ok ia, Ok ib => if ia <? ib then b else a
       | _, _ => a
       end.

Definition Math_min (a b : num) : num :=
  if isNaN a then a
  else if isNaN b then b
  else if a <? b then a
  else if b <? a then b
  else match lit 1 / a, lit 1 / b with
       | Ok ia, Ok ib => if ib <? ia then b else a
       | _, _ => a
       end.

(** The canvas of the vowel chart: its [width] and [height] attributes and
    its bounding client rectangle. *)
Record Canvas : Type := {
  width : num;
  height : num;
  rect_left : num;
  rect_top : num;
  rect_width : num;
  rect_height : num
}.

(** The vowel chart as the component renders it. *)
Definition chart (rect_left rect_top rect_width rect_height : num) : Canvas := {|
  width := lit 600;
  height := lit 400;
  rect_left := rect_left;
  rect_top := rect_top;
  rect_width := rect_width;
  rect_height := rect_height
|}.

(** [Math.round], whose result only feeds the drawing of the chart. *)
Variable Math_round : num -> num.

Definition updateVowelPosition (ui : Controls) (synth : VowelSynthesizerCore num)
           (canvas : option Canvas) (clientX clientY : num)
  : Controls * method num :=
  match canvas with
  | None => (ui, Ok (synth, []))
  | Some canvas =>
      match (scaleX <- width canvas / rect_width canvas ;;
             scaleY <- height canvas / rect_height canvas ;;
             xq <- ((clientX - rect_left canvas) * scaleX) / width canvas ;;
             let x := xq * lit 100 in
             yq <- ((clientY - rect_top canvas) * scaleY) / height canvas ;;
             let y := (lit 1 - yq) * lit 100 in
             (* Clamp to canvas bounds *)
             let clampedX := Math_max (lit 0) (Math_min (lit 100) x) in
             let clampedY := Math_max (lit 0) (Math_min (lit 100) y) in
             px <- clampedX / lit 100 ;;
             py <- clampedY / lit 100 ;;
             Ok (clampedX, clampedY, px, py)) with
      | Err e => (ui, Err e)
      | Ok (clampedX, clampedY, px, py) =>
          (setVowelXY ui (Math_round clampedX) (Math_round clampedY),
           setVowelPosition synth px py)
      end
  end.

End Lifecycle.

Arguments event : clear implicits.
Arguments VowelSynthesizerObject : clear implicits.
Arguments Controls : clear implicits.
Arguments Canvas : clear implicits.

(** ** The sawtooth generator *)

(** [SawtoothGeneratorCore] of [SawtoothGenerator.tsx] and the component's
    [toggleAudio] and handlers; the host, its nodes and the events are those
    of the vowel synthesizer. *)
Module Sawtooth.

Section Generator.

Context {num : Type} `{Number num}.
Local Open Scope num_scope.

Record SawtoothGeneratorCore : Type := {
  audioContext : option (AudioContext num);
  oscillator : option node;
  masterGain : option node;
  analyser : option node;
  isRunning : bool;
  pitch : num;
  volume : num
}.

(** The field initialisers of the class. *)
Definition initial : SawtoothGeneratorCore := {|
  audioContext := None;
  oscillator := None;
  masterGain := None;
  analyser := None;
  isRunning := false;
  pitch := lit 120;
  volume := lit 0.5
|}.

Definition set_isRunning (this : SawtoothGeneratorCore) (b : bool) : SawtoothGeneratorCore := {|
  audioContext := audioContext this;
  oscillator := oscillator this;
  masterGain := masterGain this;
  analyser := analyser this;
  isRunning := b;
  pitch := pitch this;
  volume := volume this
|}.

Definition set_pitch (this : SawtoothGeneratorCore) (f0 : num) : SawtoothGeneratorCore := {|
  audioContext := audioContext this;
  oscillator := oscillator this;
  masterGain := masterGain this;
  analyser := analyser this;
  isRunning := isRunning this;
  pitch := f0;
  volume := volume this
|}.

Definition set_volume (this : SawtoothGeneratorCore) (vol : num) : SawtoothGeneratorCore := {|
  audioContext := audioContext this;
  oscillator := oscillator this;
  masterGain := masterGain this;
  analyser := analyser this;
  isRunning := isRunning this;
  pitch := pitch this;
  volume := vol
|}.

(** [start]; [host] is what [new AudioContext()] yields, [None] when it
    throws.  The host numbers the nodes of a context in creation order. *)
Definition start (this : SawtoothGeneratorCore) (host : option (AudioContext num))
  : SawtoothGeneratorCore * list (event num) * option exception :=
  if isRunning this then (this, [], None)
  else
    match host with
    | None => (set_isRunning this false, [], Some HostError)
    | Some ctx =>
        ({| audioContext := Some ctx;
            oscillator := Some 0%nat;
            masterGain := Some 1%nat;
            analyser := Some 2%nat;
            isRunning := true;
            pitch := pitch this;
            volume := volume this |},
         [NewAudioContext;
          CreateOscillator 0%nat; SetType 0%nat "sawtooth"%string;
          SetValue (Frequency 0%nat) (pitch this);
          CreateGain 1%nat; SetValue (Gain 1%nat) (volume this);
          CreateAnalyser 2%nat; SetFftSize 2%nat 2048%Z;
          Connect 0%nat 1%nat; Connect 1%nat 2%nat; ConnectDestination 2%nat;
          Start 0%nat],
         None)
    end.

Definition stop (this : SawtoothGeneratorCore) : SawtoothGeneratorCore * list (event num) :=
  if negb (isRunning this) then (this, [])
  else
    (set_isRunning this false,
     match oscillator this with Some osc => [Stop osc] | None => [] end
     ++ match audioContext this with Some _ => [Close] | None => [] end).

Definition setPitch (this : SawtoothGeneratorCore) (f0 : num)
  : SawtoothGeneratorCore * list (call num) :=
  let this := set_pitch this f0 in
  match isRunning this, oscillator this, audioContext this with
  | true, Some osc, Some ctx =>
      let now := currentTime ctx in
      (this, [setTargetAtTime (Frequency osc) f0 now (lit 0.02)])
  | _, _, _ => (this, [])
  end.

Definition setVolume (this : SawtoothGeneratorCore) (vol : num)
  : SawtoothGeneratorCore * list (call num) :=
  let this := set_volume this vol in
  match isRunning this, masterGain this, audioContext this with
  | true, Some gain, Some ctx =>
      let now := currentTime ctx in
      (this, [setValueAtTime (Gain gain) vol now])
  | _, _, _ => (this, [])
  end.

(** The [useState] variables of the component. *)
Record Controls : Type := {
  ui_isRunning : bool;
  ui_pitch : num;
  ui_volume : num
}.

Definition mounted : Controls := {|
  ui_isRunning := false;
  ui_pitch := lit 120;
  ui_volume := lit 50
|}.

Definition setIsRunning (ui : Controls) (b : bool) : Controls :=
  {| ui_isRunning := b; ui_pitch := ui_pitch ui; ui_volume := ui_volume ui |}.

Definition toggleAudio (ui : Controls) (synth : SawtoothGeneratorCore)
           (host : option (AudioContext num))
  : Controls * SawtoothGeneratorCore * list (event num) :=
  if negb (isRunning synth) then
    match start synth host with
    | (synth, events, Some _) => (ui, synth, events ++ [Alert])
    | (synth, events, None) =>
        (* Ensure parameters are synced *)
        let (synth, pitchCalls) := setPitch synth (ui_pitch ui) in
        match ui_volume ui / lit 100 with
        | Ok vol =>
            let (synth, volumeCalls) := setVolume synth vol in
            (setIsRunning ui true, synth,
             events ++ map (@Automation num) (pitchCalls ++ volumeCalls)
                    ++ [StartWaveformAnimation])
        | Err _ => (ui, synth, events ++ map (@Automation num) pitchCalls ++ [Alert])
        end
    end
  else
    let (synth, events) := stop synth in
    (setIsRunning ui false, synth, events ++ [StopWaveformAnimation]).

Definition handlePitchChange (ui : Controls) (synth : SawtoothGeneratorCore) (value : num)
  : Controls * SawtoothGeneratorCore * list (call num) :=
  let (synth, calls) := setPitch synth value in
  ({| ui_isRunning := ui_isRunning ui; ui_pitch := value; ui_volume := ui_volume ui |},
   synth, calls).

Definition handleVolumeChange (ui : Controls) (synth : SawtoothGeneratorCore) (value : num)
  : Controls * result (SawtoothGeneratorCore * list (call num)) :=
  ({| ui_isRunning := ui_isRunning ui; ui_pitch := ui_pitch ui; ui_volume := value |},
   vol <- value / lit 100 ;; Ok (setVolume synth vol)).

End Generator.

Arguments SawtoothGeneratorCore : clear implicits.
Arguments Controls : clear implicits.

End Sawtooth.

(** ** Drawing the waveform *)

(** [drawWaveform], which the two components define alike. *)
Section Waveform.

Context {num : Type} `{Number num}.
Local Open Scope num_scope.

(** The calls on the 2D context of the waveform canvas, and the request for
    the next animation frame. *)
Inductive drawing : Type :=
| FillStyle (colour : string)
| FillRect (x y w h : num)
| LineWidth (w : num)
| StrokeStyle (colour : string)
| BeginPath
| MoveTo (x y : num)
| LineTo (x y : num)
| Stroke
| RequestAnimationFrame.

(** The waveform canvas as the components render it. *)
Definition waveformCanvas (rect_left rect_top rect_width rect_height : num) : Canvas num := {|
  width := lit 600;
  height := lit 120;
  rect_left := rect_left;
  rect_top := rect_top;
  rect_width := rect_width;
  rect_height := rect_height
|}.

(** The loop over the buffer: [i === 0] is [first], [x] the running abscissa. *)
Fixpoint plot (canvasHeight sliceWidth : num) (first : bool) (x : num) (buffer : list Z)
  : result (list drawing) :=
  match buffer with
  | [] => Ok []
  | sample :: buffer' =>
      (* Proper centering: map 0-255 to -1 to 1, then to canvas height *)
      v <- (lit (inject_Z sample) - lit 128) / lit 128.0 ;;
      (* Apply 2x zoom around center point for better visibility *)
      half <- canvasHeight / lit 2 ;;
      zoomed <- (v * canvasHeight) / lit 2 ;;
      let y := half + zoomed * lit 2.0 in
      (* Clamp to canvas bounds to prevent drawing outside *)
      let clampedY := Math_max (lit 0) (Math_min canvasHeight y) in
      rest <- plot canvasHeight sliceWidth false (x + sliceWidth) buffer' ;;
      Ok ((if first then MoveTo x clampedY else LineTo x clampedY) :: rest)
  end.

(** [drawWaveform]; [context2d] tells whether [getContext('2d')] yields a
    context, [buffer] is what [getByteTimeDomainData] writes. *)
Definition drawWaveform (canvas : option (Canvas num)) (analyser : option node)
           (isRunning context2d : bool) (buffer : list Z) : result (list drawing) :=
  match canvas, analyser, isRunning with
  | Some canvas, Some _, true =>
      if negb context2d then Ok []
      else
        sliceWidth <- width canvas / lit (inject_Z (Z.of_nat (List.length buffer))) ;;
        points <- plot (height canvas) sliceWidth true (lit 0) buffer ;;
        half <- height canvas / lit 2 ;;
        Ok ([FillStyle "#f9fafb"%string;
             FillRect (lit 0) (lit 0) (width canvas) (height canvas);
             LineWidth (lit 2); StrokeStyle "#3b82f6"%string; BeginPath]
            ++ points
            ++ [LineTo (width canvas) half; Stroke; RequestAnimationFrame])
  | _, _, _ => Ok []
  end.

(** The points of a path, in drawing order. *)
Fixpoint path_points (calls : list drawing) : list (num * num) :=
  match calls with
  | [] => []
  | MoveTo x y :: rest => (x, y) :: path_points rest
  | LineTo x y :: rest => (x, y) :: path_points rest
  | _ :: rest => path_points rest
  end.

End Waveform.

Arguments drawing : clear implicits.

(** ** The reference definition of the interpolation

    Written from the description of the algorithm, to be compared with
    [interpolateFormants]: over the arithmetic of the program in
    [Algorithm], so that it reads on binary64 as on the reals, and over
    exact reals with the mathematical distance in [Reference]. *)

Module Algorithm.

Section Words.

Context {num : Type} `{Number num}.
Local Open Scope num_scope.

(** Euclidean distance from [p] to [q]. *)
Definition euclidean (p q : num * num) : num :=
  let dx := fst p - fst q in
  let dy := snd p - snd q in
  num_sqrt (dx * dx + dy * dy).

(** The anchor of smallest distance, the first in iteration order among
    equals, and the anchors that remain, in their order. *)
Fixpoint closest {A : Type} (d : A -> num) (l : list A) : option (A * list A) :=
  match l with
  | [] => None
  | a :: l' =>
      match closest d l' with
      | None => Some (a, [])
      | Some (m, rest) => if d m <? d a then Some (m, a :: rest) else Some (a, l')
      end
  end.

(** The [k] anchors of smallest distance, nearest first. *)
Fixpoint select {A : Type} (d : A -> num) (k : nat) (l : list A) : list A :=
  match k with
  | O => []
  | S k' =>
      match closest d l with
      | None => []
      | Some (m, rest) => m :: select d k' rest
      end
  end.

Definition sum (l : list num) : num := fold_left num_add l (lit 0).

Definition band (k : nat) (a : string * VowelData num) : num :=
  nth k (formants (snd a)) (lit 0).

Definition interpolate (x y : num) : result (list num) :=
  let d := fun a : string * VowelData num => euclidean (pos (snd a)) (x, y) in
  let chosen := select d 3 VOWELS in
  w <- mapM (fun a => lit 1 / (d a + lit 0.01)) chosen ;;
  nw <- mapM (fun wi => wi / sum w) w ;;
  Ok (map (fun k => sum (map (fun an => band k (fst an) * snd an) (combine chosen nw)))
          [0%nat; 1%nat; 2%nat]).

End Words.

End Algorithm.

Section Agreement.

Context {num : Type} `{Number num}.
Local Open Scope num_scope.

(** On the numbers of [ds] the sign of a difference tells which of the two
    is the larger: the comparator [a - b] of the program's sort orders them
    as [<] does. *)
Definition sign_agrees (ds : list num) : bool :=
  forallb (fun a => forallb (fun b => Bool.eqb (lit 0 <? a - b) (b <? a)) ds) ds.


End Agreement.

Module Reference.
Local Open Scope R_scope.

(** Euclidean distance between two points of the plane. *)
Definition euclidean (p q : R * R) : R :=
  R_sqrt.sqrt ((fst p - fst q) * (fst p - fst q) + (snd p - snd q) * (snd p - snd q)).

(** The anchor of least distance, the first in iteration order among equals,
    and the anchors that remain, in their order. *)
Fixpoint closest {A : Type} (d : A -> R) (l : list A) : option (A * list A) :=
  match l with
  | [] => None
  | a :: l' =>
      match closest d l' with
      | None => Some (a, [])
      | Some (m, rest) =>
          if Rlt_dec (d m) (d a) then Some (m, a :: rest) else Some (a, l')
      end
  end.

(** The [k] anchors of least distance, nearest first. *)
Fixpoint select {A : Type} (d : A -> R) (k : nat) (l : list A) : list A :=
  match k with
  | O => []
  | S k' =>
      match closest d l with
      | None => []
      | Some (m, rest) => m :: select d k' rest
      end
  end.

Definition sum (l : list R) : R := fold_right Rplus 0 l.

Definition band (k : nat) (a : string * VowelData R) : R :=
  nth k (formants (snd a)) 0.

Definition interpolate (x y : R) : list R :=
  let d := fun a : string * VowelData R => euclidean (pos (snd a)) (x, y) in
  let chosen := select d 3 VOWELS in
  let w := map (fun a => 1 / (d a + 0.01)) chosen in
  let nw := map (fun wi => wi / sum w) w in
  map (fun k => sum (map (fun an => band k (fst an) * snd an) (combine chosen nw)))
      [0%nat; 1%nat; 2%nat].

End Reference.

(** * Properties

    In exact real arithmetic, but for the comparison with the reference
    definition, which is proved over the interface. *)

Local Open Scope R_scope.

(** ** Notions used in the statements *)

(** A list in which every later element has a key at least as large. *)
Inductive ascending (A : Type) (key : A -> R) : list A -> Prop :=
| ascending_nil : ascending key []
| ascending_cons a l :
    Forall (fun b => key a <= key b) l -> ascending key l -> ascending key (a :: l).

(** An entry of [distances]: its distance is not negative and its anchor has
    three positive formants. *)
Definition entry_ok (e : Entry R) : Prop :=
  0 <= dist e /\
  exists a b c, formants (data e) = [a; b; c] /\ 0 < a /\ 0 < b /\ 0 < c.

(** The entry that [distances] builds for an anchor. *)
Definition entry_of (x y : R) (nd : string * VowelData R) : Entry R :=
  {| name := fst nd; data := snd nd; dist := Reference.euclidean (pos (snd nd)) (x, y) |}.

(** The square of the Euclidean distance. *)
Definition sqdist (p q : R * R) : R :=
  (fst p - fst q) * (fst p - fst q) + (snd p - snd q) * (snd p - snd q).

(** The weight of an anchor at distance [d]. *)
Definition weight (d : R) : R := 1 / (d + 0.01).

(** The gender scale factor. *)
Definition gender_scale (g : R) : R :=
  if Rle_dec g 1 then 1.0 + 0.18 * g else 1.18 + 0.25 * (g - 1).

(** The value of Q that the claimed closed form gives for a quality factor. *)
Definition closed_form_Q (q : R) : R :=
  if Rle_dec 0 q then 1 / (0.08 * (1 + 0.5 * q)) else 1 / (0.08 * (1 + 0.3 * q)).

(** What a method hands to the filter stages, or the error it raises. *)
Definition outcome (m : method R) : result (list (R * R)) :=
  match m with
  | Ok (_, calls) => Ok (formantOutput calls)
  | Err e => Err e
  end.

(** The formants of a catalog anchor: three values, each within the range
    its band takes over the catalog, in increasing order. *)
Definition in_catalog_range (fs : list R) : Prop :=
  exists a b c,
    fs = [a; b; c] /\
    270 <= a <= 860 /\ 840 <= b <= 2290 /\ 1690 <= c <= 3010 /\
    a < b /\ b < c.

(** The control values lie in their documented ranges. *)
Definition in_domain (this : VowelSynthesizerCore R) : Prop :=
  0 <= vowelX this <= 1 /\ 0 <= vowelY this <= 1 /\
  0 <= genderFactor this <= 2 /\ -1 <= qualityFactor this <= 1.

(** The value an interval clamps a number to. *)
Definition clamp (lo hi x : R) : R := Rmax lo (Rmin hi x).

(** Two numbers that differ by no more than [tol]: what remains of an
    identity of exact arithmetic once every operation rounds. *)
Definition close (tol a b : R) : Prop := Rabs (a - b) <= tol.

(** The ordinate at which a canvas of height [h] shows a sample byte: the
    centre line plus the sample's signed level times [h], clamped to the
    canvas. *)
Definition sample_y (h : R) (sample : Z) : R :=
  clamp 0 h (h / 2 + (IZR sample - 128) / 128 * h).

(** The abscissae of [n] points, [step] apart, from [x]. *)
Definition abscissae (x step : R) (n : nat) : list R :=
  map (fun i => x + INR i * step) (seq 0 n).

(** *** Inputs of the runs on binary64 *)

(** The values a slider from [lo] up to [hi] reports. *)
Definition slider (lo hi : Z) : list float :=
  map (fun k => PrimFloat.of_uint63 (Uint63.of_Z (lo + Z.of_nat k)))
      (seq 0 (Z.to_nat (hi - lo) + 1)).

(** The positions [(i/n, j/n)] of the unit square. *)
Definition grid (n : Z) : list (float * float) :=
  let ticks := map (fun k => PrimFloat.div k (PrimFloat.of_uint63 (Uint63.of_Z n))) (slider 0 n) in
  flat_map (fun x => map (fun y => (x, y)) ticks) ticks.

(** [close] on binary64. *)
Definition float_close (tol a b : float) : bool :=
  PrimFloat.leb (PrimFloat.abs (PrimFloat.sub a b)) tol.

(** The gender scale and the closed form of Q on binary64. *)
Definition float_gender_scale (g : float) : float :=
  if PrimFloat.leb g (lit 1)
  then PrimFloat.add (lit 1.0) (PrimFloat.mul (lit 0.18) g)
  else PrimFloat.add (lit 1.18) (PrimFloat.mul (lit 0.25) (PrimFloat.sub g (lit 1))).

Definition float_closed_form_Q (q : float) : float :=
  if PrimFloat.leb (lit 0) q
  then PrimFloat.div (lit 1)
         (PrimFloat.mul (lit 0.08) (PrimFloat.add (lit 1) (PrimFloat.mul (lit 0.5) q)))
  else PrimFloat.div (lit 1)
         (PrimFloat.mul (lit 0.08) (PrimFloat.add (lit 1) (PrimFloat.mul (lit 0.3) q))).

(** ** The arithmetic interface at the reals *)

Lemma R_ltb_true (a b : R) : a < b -> R_ltb a b = true.
Proof. intros Hab. unfold R_ltb. destruct (Rlt_dec a b); [reflexivity | contradiction]. Qed.

Lemma R_ltb_false (a b : R) : b <= a -> R_ltb a b = false.
Proof. intros Hab. unfold R_ltb. destruct (Rlt_dec a b); [lra | reflexivity]. Qed.

Lemma R_leb_true (a b : R) : a <= b -> R_leb a b = true.
Proof. intros Hab. unfold R_leb. destruct (Rle_dec a b); [reflexivity | contradiction]. Qed.

Lemma R_leb_false (a b : R) : b < a -> R_leb a b = false.
Proof. intros Hab. unfold R_leb. destruct (Rle_dec a b); [lra | reflexivity]. Qed.

Lemma R_div_ok (a b : R) : b <> 0 -> R_div a b = Ok (a / b).
Proof. intros Hb. unfold R_div. destruct (Req_dec_T b 0); [contradiction | reflexivity]. Qed.

Lemma num_div_ok (a b : R) : b <> 0 -> num_div a b = Ok (a / b).
Proof. exact (@R_div_ok a b). Qed.

Lemma R_div_zero (a : R) : R_div a 0 = Err NotFinite.
Proof. unfold R_div. destruct (Req_dec_T 0 0); [reflexivity | exfalso; auto]. Qed.

(** Unfolds the interface at the reals, leaving numerals that [lra] reads. *)
Ltac reals :=
  cbv [lit num_add num_sub num_mul num_div num_sqrt num_ltb num_leb
       R_Number R_lit] in *.

(** Decimal constants as quotients of integers, for [field]. *)
Ltac decimals := unfold Q2R; cbn [Qnum Qden].

(** ** The stable sort *)

Section Sorting.

Variable A : Type.
Variable key : A -> R.

(** The comparator of the program's sort, [(a, b) => a.dist - b.dist]. *)
Local Notation "'by_key'" := (fun a b : A => num_sub (key a) (key b)) (only parsing).

Lemma insert_cons (a b : A) (l : list A) :
  insert by_key a (b :: l) =
  if Rlt_dec (key b) (key a) then b :: insert by_key a l else a :: b :: l.
Proof.
  cbn [insert]. reals. unfold R_ltb.
  destruct (Rlt_dec (Q2R 0) (key a - key b)), (Rlt_dec (key b) (key a));
    try reflexivity; lra.
Qed.

Lemma insert_perm (a : A) (l : list A) : Permutation (insert by_key a l) (a :: l).
Proof.
  induction l as [| b l IH].
  - apply Permutation_refl.
  - rewrite insert_cons. destruct (Rlt_dec (key b) (key a)).
    + apply perm_trans with (b :: a :: l).
      * apply perm_skip, IH.
      * apply perm_swap.
    + apply Permutation_refl.
Qed.

Lemma sort_perm (l : list A) : Permutation (sort by_key l) l.
Proof.
  induction l as [| a l IH]; cbn [sort fold_right].
  - apply perm_nil.
  - apply perm_trans with (a :: sort by_key l).
    + apply insert_perm.
    + apply perm_skip, IH.
Qed.

Lemma sort_length (l : list A) : List.length (sort by_key l) = List.length l.
Proof. apply Permutation_length, sort_perm. Qed.

Lemma insert_ascending (a : A) (l : list A) :
  ascending key l -> ascending key (insert by_key a l).
Proof.
  induction 1 as [| b l Hb Hl IH].
  - cbn [insert]. constructor; [constructor | constructor].
  - rewrite insert_cons. destruct (Rlt_dec (key b) (key a)) as [Hlt | Hge].
    + constructor; [| exact IH].
      apply Permutation_Forall with (a :: l).
      * apply Permutation_sym, insert_perm.
      * constructor; [lra | exact Hb].
    + constructor.
      * constructor; [lra |].
        eapply Forall_impl; [| exact Hb]. cbn. intros c Hc. lra.
      * constructor; assumption.
Qed.

Lemma sort_ascending (l : list A) : ascending key (sort by_key l).
Proof.
  induction l as [| a l IH]; cbn [sort fold_right].
  - constructor.
  - apply insert_ascending, IH.
Qed.

(** The head of the sorted list has the least key of the list. *)
Lemma sort_head_least (l : list A) (m : A) (s : list A) :
  sort by_key l = m :: s -> forall b, In b l -> key m <= key b.
Proof.
  intros Hs b Hb.
  assert (Hin : In b (m :: s)).
  { rewrite <- Hs. apply Permutation_in with l; [apply Permutation_sym, sort_perm | exact Hb]. }
  pose proof (sort_ascending l) as Hasc. rewrite Hs in Hasc.
  inversion Hasc as [| ? ? Hall _]; subst.
  destruct Hin as [-> | Hin]; [lra |].
  rewrite Forall_forall in Hall. apply Hall, Hin.
Qed.

(** Sorting is selecting the closest element, over and over. *)
Lemma sort_closest (l : list A) :
  sort by_key l =
  match Reference.closest key l with
  | None => []
  | Some (m, rest) => m :: sort by_key rest
  end.
Proof.
  induction l as [| a l IH]; [reflexivity |].
  cbn [sort fold_right Reference.closest]. fold (sort by_key l).
  destruct (Reference.closest key l) as [[m rest] |] eqn:Hl; rewrite IH.
  - rewrite insert_cons. destruct (Rlt_dec (key m) (key a)); [reflexivity |].
    rewrite IH. reflexivity.
  - reflexivity.
Qed.

Lemma firstn_sort_select (k : nat) (l : list A) :
  firstn k (sort by_key l) = Reference.select key k l.
Proof.
  revert l. induction k as [| k IH]; intros l; [reflexivity |].
  rewrite sort_closest. cbn [Reference.select].
  destruct (Reference.closest key l) as [[m rest] |]; [| reflexivity].
  cbn [firstn]. rewrite IH. reflexivity.
Qed.

End Sorting.

(** ** The catalog *)

Lemma distances_length (x y : R) : List.length (distances x y) = 11%nat.
Proof. reflexivity. Qed.

Lemma distances_ok (x y : R) : Forall entry_ok (distances x y).
Proof.
  unfold distances, VOWELS. cbn [map fst snd pos].
  repeat (apply Forall_cons;
          [split; cbn [dist data formants];
           [apply sqrt_pos | eexists _, _, _; split; [reflexivity | reals; lra]] |]).
  apply Forall_nil.
Qed.

Lemma nearest_three (x y : R) :
  exists e0 e1 e2 s,
    sort (fun a b => num_sub (dist a) (dist b)) (distances x y) = e0 :: e1 :: e2 :: s /\
    nearest x y = [e0; e1; e2].
Proof.
  unfold nearest.
  pose proof (sort_length (@dist R) (distances x y)) as Hlen.
  rewrite distances_length in Hlen.
  destruct (sort _ (distances x y)) as [| e0 [| e1 [| e2 s]]]; try discriminate Hlen.
  exists e0, e1, e2, s. split; reflexivity.
Qed.

Lemma nearest_In (x y : R) (e : Entry R) :
  In e (nearest x y) -> In e (distances x y).
Proof.
  intros He. unfold nearest in He.
  assert (Hs : In e (sort (fun a b => num_sub (dist a) (dist b)) (distances x y))).
  { rewrite <- (firstn_skipn 3). apply in_or_app. left. exact He. }
  clear He. rename Hs into He.
  apply Permutation_in with (sort (fun a b => num_sub (dist a) (dist b)) (distances x y)).
  - apply (sort_perm (@dist R)).
  - exact He.
Qed.

Lemma nearest_ok (x y : R) : Forall entry_ok (nearest x y).
Proof.
  apply Forall_forall. intros e He.
  pose proof (distances_ok x y) as Hall. rewrite Forall_forall in Hall.
  apply Hall, nearest_In, He.
Qed.

(** ** The interpolation, once the three nearest anchors are known *)

Lemma weight_pos (d : R) : 0 <= d -> 0 < weight d.
Proof.
  intros Hd. unfold weight. apply Rdiv_lt_0_compat; lra.
Qed.

Lemma interpolate_explicit (x y : R) (e0 e1 e2 : Entry R)
      (a0 b0 c0 a1 b1 c1 a2 b2 c2 : R) :
  nearest x y = [e0; e1; e2] ->
  formants (data e0) = [a0; b0; c0] ->
  formants (data e1) = [a1; b1; c1] ->
  formants (data e2) = [a2; b2; c2] ->
  0 <= dist e0 -> 0 <= dist e1 -> 0 <= dist e2 ->
  let w0 := weight (dist e0) in
  let w1 := weight (dist e1) in
  let w2 := weight (dist e2) in
  let t := w0 + w1 + w2 in
  weights x y = Ok [w0; w1; w2] /\
  normalizedWeights x y = Ok [w0 / t; w1 / t; w2 / t] /\
  interpolateFormants x y =
    Ok [a0 * (w0 / t) + a1 * (w1 / t) + a2 * (w2 / t);
        b0 * (w0 / t) + b1 * (w1 / t) + b2 * (w2 / t);
        c0 * (w0 / t) + c1 * (w1 / t) + c2 * (w2 / t)].
Proof.
  intros Hn H0 H1 H2 Hd0 Hd1 Hd2 w0 w1 w2 t.
  pose proof (weight_pos Hd0) as Hw0. pose proof (weight_pos Hd1) as Hw1.
  pose proof (weight_pos Hd2) as Hw2. fold w0 in Hw0. fold w1 in Hw1. fold w2 in Hw2.
  assert (Hws : weights x y = Ok [w0; w1; w2]).
  { unfold weights. rewrite Hn. cbn [mapM bind]. reals.
    rewrite !R_div_ok by lra. cbn [bind].
    unfold w0, w1, w2, weight. repeat f_equal; lra. }
  assert (Ht : totalWeight [w0; w1; w2] = t).
  { unfold totalWeight. cbn [fold_left]. reals. unfold t. lra. }
  assert (Hnw : normalizedWeights x y = Ok [w0 / t; w1 / t; w2 / t]).
  { unfold normalizedWeights. rewrite Hws. cbn [bind mapM]. rewrite Ht. reals.
    rewrite !R_div_ok by (unfold t; lra). reflexivity. }
  split; [exact Hws |]. split; [exact Hnw |].
  unfold interpolateFormants. rewrite Hnw, Hn. cbn [bind seq mapM foldM item elem nth_error].
  rewrite H0, H1, H2. cbn [bind seq mapM foldM item elem nth_error]. reals.
  replace (Q2R 0) with 0 by lra. rewrite !Rplus_0_l. reflexivity.
Qed.

Lemma blend_pos (a0 a1 a2 w0 w1 w2 : R) :
  0 < a0 -> 0 < a1 -> 0 < a2 -> 0 < w0 -> 0 < w1 -> 0 < w2 ->
  0 < a0 * (w0 / (w0 + w1 + w2)) + a1 * (w1 / (w0 + w1 + w2)) + a2 * (w2 / (w0 + w1 + w2)).
Proof.
  intros Ha0 Ha1 Ha2 Hw0 Hw1 Hw2.
  assert (Ht : 0 < w0 + w1 + w2) by lra.
  assert (H0 : 0 < a0 * (w0 / (w0 + w1 + w2))).
  { apply Rmult_lt_0_compat; [assumption | apply Rdiv_lt_0_compat; assumption]. }
  assert (H1 : 0 < a1 * (w1 / (w0 + w1 + w2))).
  { apply Rmult_lt_0_compat; [assumption | apply Rdiv_lt_0_compat; assumption]. }
  assert (H2 : 0 < a2 * (w2 / (w0 + w1 + w2))).
  { apply Rmult_lt_0_compat; [assumption | apply Rdiv_lt_0_compat; assumption]. }
  lra.
Qed.

(** [interpolateFormants] is total and returns three positive frequencies,
    wherever the query point lies. *)
Lemma interpolateFormants_total (x y : R) :
  exists f1 f2 f3,
    interpolateFormants x y = Ok [f1; f2; f3] /\ 0 < f1 /\ 0 < f2 /\ 0 < f3.
Proof.
  destruct (nearest_three x y) as (e0 & e1 & e2 & s & _ & Hn).
  pose proof (nearest_ok x y) as Hok. rewrite Hn in Hok.
  inversion Hok as [| ? ? [Hd0 (a0 & b0 & c0 & Hf0 & Ha0 & Hb0 & Hc0)] Hok1]; subst.
  inversion Hok1 as [| ? ? [Hd1 (a1 & b1 & c1 & Hf1 & Ha1 & Hb1 & Hc1)] Hok2]; subst.
  inversion Hok2 as [| ? ? [Hd2 (a2 & b2 & c2 & Hf2 & Ha2 & Hb2 & Hc2)] _]; subst.
  destruct (interpolate_explicit x y Hn Hf0 Hf1 Hf2 Hd0 Hd1 Hd2) as (_ & _ & Hi).
  pose proof (weight_pos Hd0) as Hw0. pose proof (weight_pos Hd1) as Hw1.
  pose proof (weight_pos Hd2) as Hw2.
  eexists _, _, _. split; [exact Hi |].
  repeat split; apply blend_pos; assumption.
Qed.

(** ** Gender scaling and bandwidth *)

Lemma scale_low (fs : list R) (g : R) :
  g <= 1 -> scaleFormantsForGender fs g = map (fun f => f * (1.0 + 0.18 * g)) fs.
Proof.
  intros Hg. unfold scaleFormantsForGender. reals.
  rewrite R_leb_true by lra. apply map_ext. intros f. lra.
Qed.

Lemma scale_high (fs : list R) (g : R) :
  1 < g -> scaleFormantsForGender fs g = map (fun f => f * (1.18 + 0.25 * (g - 1))) fs.
Proof.
  intros Hg. unfold scaleFormantsForGender. reals.
  rewrite R_leb_false by lra. apply map_ext. intros f. lra.
Qed.

Lemma map_scale_one (fs : list R) (c : R) : c = 1 -> map (fun f => f * c) fs = fs.
Proof.
  intros ->. induction fs as [| f fs IH]; cbn [map]; [reflexivity |].
  rewrite IH, Rmult_1_r. reflexivity.
Qed.

Lemma bandwidth_breathy (centerFreq q : R) :
  0 <= q -> calculateBandwidth centerFreq q = centerFreq * 0.08 * (1.0 + 0.5 * q).
Proof.
  intros Hq. unfold calculateBandwidth. reals. rewrite R_leb_true by lra. lra.
Qed.

Lemma bandwidth_tense (centerFreq q : R) :
  q < 0 -> calculateBandwidth centerFreq q = centerFreq * 0.08 * (1.0 + 0.3 * q).
Proof.
  intros Hq. unfold calculateBandwidth. reals. rewrite R_leb_false by lra. lra.
Qed.

Lemma bandwidth_pos (centerFreq q : R) :
  0 < centerFreq -> -1 <= q <= 1 -> 0 < calculateBandwidth centerFreq q.
Proof.
  intros Hf Hq. destruct (Rle_dec 0 q) as [Hq0 | Hq0].
  - rewrite bandwidth_breathy by lra. nra.
  - rewrite bandwidth_tense by lra. nra.
Qed.

(** C3: the gender scale factor is [1.0 + 0.18 g] on [[0,1]] and
    [1.18 + 0.25 (g - 1)] above 1, every formant is multiplied by it,
    neutral gender is the identity and the factor at [g = 1] is exactly 1.18. *)
Theorem scaleFormantsForGender_spec (fs : list R) (g : R) :
  (0 <= g <= 1 ->
   scaleFormantsForGender fs g = map (fun f => f * (1.0 + 0.18 * g)) fs) /\
  (1 < g ->
   scaleFormantsForGender fs g = map (fun f => f * (1.18 + 0.25 * (g - 1))) fs) /\
  scaleFormantsForGender fs 0 = fs /\
  scaleFormantsForGender fs 1 = map (fun f => f * 1.18) fs.
Proof.
  split; [| split; [| split]].
  - intros Hg. apply scale_low. lra.
  - apply scale_high.
  - rewrite scale_low by lra. apply map_scale_one. lra.
  - rewrite scale_low by lra. apply map_ext. intros f. lra.
Qed.

Lemma scaleFormantsForGender_spec_witness :
  scaleFormantsForGender [270; 2290; 3010] 0.5 =
    map (fun f => f * (1.0 + 0.18 * 0.5)) [270; 2290; 3010] /\
  scaleFormantsForGender [270; 2290; 3010] 2 =
    map (fun f => f * (1.18 + 0.25 * (2 - 1))) [270; 2290; 3010].
Proof.
  split.
  - apply (proj1 (scaleFormantsForGender_spec [270; 2290; 3010] 0.5)). lra.
  - apply (proj1 (proj2 (scaleFormantsForGender_spec [270; 2290; 3010] 2))). lra.
Defined.

(** C4: the bandwidth is [centerFreq * 0.08 * (1.0 + 0.5 q)] for [q >= 0] and
    [centerFreq * 0.08 * (1.0 + 0.3 q)] for [q < 0]; at neutral quality it is
    [centerFreq * 0.08]. *)
Theorem calculateBandwidth_spec (centerFreq q : R) :
  (0 <= q -> calculateBandwidth centerFreq q = centerFreq * 0.08 * (1.0 + 0.5 * q)) /\
  (q < 0 -> calculateBandwidth centerFreq q = centerFreq * 0.08 * (1.0 + 0.3 * q)) /\
  calculateBandwidth centerFreq 0 = centerFreq * 0.08.
Proof.
  split; [| split].
  - apply bandwidth_breathy.
  - apply bandwidth_tense.
  - rewrite bandwidth_breathy by lra. lra.
Qed.

Lemma calculateBandwidth_spec_witness :
  calculateBandwidth 270 1 = 270 * 0.08 * (1.0 + 0.5 * 1) /\
  calculateBandwidth 270 (-1) = 270 * 0.08 * (1.0 + 0.3 * -1).
Proof.
  split.
  - apply (proj1 (calculateBandwidth_spec 270 1)). lra.
  - apply (proj1 (proj2 (calculateBandwidth_spec 270 (-1)))). lra.
Defined.

(** ** Divisions *)

(** C6: for a positive centre frequency and a quality factor in [[-1,1]] the
    bandwidth is positive (its multiplier is at least 0.7), so [Q = freq / bw]
    divides by a non-zero number; and every divisor [dist + 0.01] of the
    weight computation is at least 0.01, so the three weights are computed
    without a division by zero at every query point, the anchor positions
    included. *)
Theorem divisions_never_by_zero (centerFreq q x y : R) :
  0 < centerFreq -> -1 <= q <= 1 ->
  0 < calculateBandwidth centerFreq q /\
  (exists mult, 0.7 <= mult /\ calculateBandwidth centerFreq q = centerFreq * 0.08 * mult) /\
  num_div centerFreq (calculateBandwidth centerFreq q) =
    Ok (centerFreq / calculateBandwidth centerFreq q) /\
  (forall e, In e (distances x y) -> 0.01 <= dist e + 0.01) /\
  (exists w0 w1 w2, weights x y = Ok [w0; w1; w2]).
Proof.
  intros Hf Hq.
  pose proof (bandwidth_pos Hf Hq) as Hbw.
  split; [exact Hbw |]. split; [| split; [| split]].
  - destruct (Rle_dec 0 q) as [Hq0 | Hq0].
    + exists (1.0 + 0.5 * q). split; [lra | apply bandwidth_breathy; lra].
    + exists (1.0 + 0.3 * q). split; [lra | apply bandwidth_tense; lra].
  - reals. apply R_div_ok. lra.
  - intros e He. pose proof (distances_ok x y) as Hall.
    rewrite Forall_forall in Hall. destruct (Hall e He) as [Hd _]. lra.
  - destruct (nearest_three x y) as (e0 & e1 & e2 & s & _ & Hn).
    pose proof (nearest_ok x y) as Hok. rewrite Hn in Hok.
    inversion Hok as [| ? ? [Hd0 (a0 & b0 & c0 & Hf0 & _)] Hok1]; subst.
    inversion Hok1 as [| ? ? [Hd1 (a1 & b1 & c1 & Hf1 & _)] Hok2]; subst.
    inversion Hok2 as [| ? ? [Hd2 (a2 & b2 & c2 & Hf2 & _)] _]; subst.
    destruct (interpolate_explicit x y Hn Hf0 Hf1 Hf2 Hd0 Hd1 Hd2) as (Hw & _).
    eexists _, _, _. exact Hw.
Qed.

Lemma divisions_never_by_zero_witness :
  0 < calculateBandwidth 270 (-1) /\
  (exists w0 w1 w2, weights (num := R) 0.9 0.9 = Ok [w0; w1; w2]).
Proof.
  assert (Hf : 0 < 270) by lra.
  assert (Hq : -1 <= -1 <= 1) by lra.
  destruct (divisions_never_by_zero (centerFreq := 270) (q := -1) 0.9 0.9 Hf Hq)
    as (Hbw & _ & _ & _ & Hw).
  split; [exact Hbw | exact Hw].
Defined.

Lemma Q_closed_form (freq q : R) :
  freq <> 0 -> q <> - 10 / 3 ->
  num_div freq (calculateBandwidth freq q) = Ok (closed_form_Q q).
Proof.
  intros Hf Hq. unfold closed_form_Q. cbv [num_div R_Number].
  destruct (Rle_dec 0 q) as [Hq0 | Hq0].
  - rewrite bandwidth_breathy by lra.
    assert (Hm : 1.0 + 0.5 * q <> 0) by lra.
    rewrite R_div_ok.
    + apply f_equal. decimals. field. split; [revert Hm; decimals; lra | exact Hf].
    + apply Rmult_integral_contrapositive_currified; [| exact Hm].
      apply Rmult_integral_contrapositive_currified; [exact Hf | lra].
  - rewrite bandwidth_tense by lra.
    assert (Hm : 1.0 + 0.3 * q <> 0) by lra.
    rewrite R_div_ok.
    + apply f_equal. decimals. field. split; [revert Hm; decimals; lra | exact Hf].
    + apply Rmult_integral_contrapositive_currified; [| exact Hm].
      apply Rmult_integral_contrapositive_currified; [exact Hf | lra].
Qed.

(** ** The recompute pass *)

Lemma scale_by_gender_scale (fs : list R) (g : R) :
  scaleFormantsForGender fs g = map (fun f => f * gender_scale g) fs.
Proof.
  unfold gender_scale. destruct (Rle_dec g 1) as [Hg | Hg].
  - apply scale_low. exact Hg.
  - apply scale_high. lra.
Qed.

Lemma started_inv (this : VowelSynthesizerCore R) :
  started this ->
  exists ctx osc n0 n1 n2 gain,
    isRunning this = true /\ audioContext this = Some ctx /\
    oscillator this = Some osc /\ filters this = [n0; n1; n2] /\
    masterGain this = Some gain.
Proof.
  intros (Hrun & Hctx & Hosc & Hlen & Hgain).
  destruct (audioContext this) as [ctx |]; [| contradiction].
  destruct (oscillator this) as [osc |]; [| contradiction].
  destruct (masterGain this) as [gain |]; [| contradiction].
  destruct (filters this) as [| n0 [| n1 [| n2 [| n3 l]]]]; try discriminate Hlen.
  exists ctx, osc, n0, n1, n2, gain. repeat split; assumption.
Qed.

(** A run of [updateVowel] on a started synthesizer, given the interpolated
    formants and the three quotients. *)
Lemma updateVowel_run (this : VowelSynthesizerCore R) (ctx : AudioContext R)
      (n0 n1 n2 : node) (f1 f2 f3 Q1 Q2 Q3 : R) :
  isRunning this = true ->
  audioContext this = Some ctx ->
  filters this = [n0; n1; n2] ->
  interpolateFormants (vowelX this) (vowelY this) = Ok [f1; f2; f3] ->
  let s := gender_scale (genderFactor this) in
  let q := qualityFactor this in
  let now := currentTime ctx in
  num_div (f1 * s) (calculateBandwidth (f1 * s) q) = Ok Q1 ->
  num_div (f2 * s) (calculateBandwidth (f2 * s) q) = Ok Q2 ->
  num_div (f3 * s) (calculateBandwidth (f3 * s) q) = Ok Q3 ->
  updateVowel this =
    Ok (this,
        [setTargetAtTime (Frequency n0) (f1 * s) now 0.02;
         setTargetAtTime (QParam n0) Q1 now 0.02;
         setTargetAtTime (Frequency n1) (f2 * s) now 0.02;
         setTargetAtTime (QParam n1) Q2 now 0.02;
         setTargetAtTime (Frequency n2) (f3 * s) now 0.02;
         setTargetAtTime (QParam n2) Q3 now 0.02]).
Proof.
  intros Hrun Hctx Hfil Hi s q now HQ1 HQ2 HQ3.
  unfold updateVowel. rewrite Hrun, Hctx, Hi, Hfil. cbn [bind].
  rewrite scale_by_gender_scale. cbn [map seq mapM elem item nth_error bind].
  fold s q now. rewrite HQ1. cbn [bind]. rewrite HQ2. cbn [bind]. rewrite HQ3.
  cbn [bind List.concat app]. reflexivity.
Qed.

Lemma updateVowel_keeps_state (this s : VowelSynthesizerCore R) (calls : list (call R)) :
  updateVowel this = Ok (s, calls) -> s = this.
Proof.
  unfold updateVowel.
  destruct (isRunning this); [| intros [= <- _]; reflexivity].
  destruct (audioContext this) as [ctx |]; [| intros [= <- _]; reflexivity].
  destruct (interpolateFormants (vowelX this) (vowelY this)) as [fs | e];
    cbn [bind]; [| discriminate].
  destruct (mapM _ (seq 0 3)) as [cs | e]; cbn [bind]; [| discriminate].
  intros [= <- _]. reflexivity.
Qed.

(** On a started synthesizer whose gender scale is positive and whose
    quality factor lies in [[-1,1]], the pass succeeds and hands over three
    positive pairs. *)
Lemma updateVowel_total (this : VowelSynthesizerCore R) :
  started this ->
  0 <= genderFactor this <= 2 ->
  -1 <= qualityFactor this <= 1 ->
  exists calls F1 Q1 F2 Q2 F3 Q3,
    updateVowel this = Ok (this, calls) /\
    formantOutput calls = [(F1, Q1); (F2, Q2); (F3, Q3)] /\
    0 < F1 /\ 0 < Q1 /\ 0 < F2 /\ 0 < Q2 /\ 0 < F3 /\ 0 < Q3.
Proof.
  intros Hst Hg Hq.
  destruct (interpolateFormants_total (vowelX this) (vowelY this))
    as (f1 & f2 & f3 & Hi & Hf1 & Hf2 & Hf3).
  destruct (started_inv Hst) as (ctx & osc & n0 & n1 & n2 & gain & Hrun & Hctx & _ & Hfil & _).
  set (s := gender_scale (genderFactor this)).
  assert (Hs : 0 < s).
  { unfold s, gender_scale. destruct (Rle_dec (genderFactor this) 1); lra. }
  assert (HF : forall f, 0 < f -> 0 < f * s).
  { intros f Hf. apply Rmult_lt_0_compat; assumption. }
  assert (HQ : forall F, 0 < F ->
             num_div F (calculateBandwidth F (qualityFactor this)) =
               Ok (F / calculateBandwidth F (qualityFactor this)) /\
             0 < F / calculateBandwidth F (qualityFactor this)).
  { intros F HF0. pose proof (bandwidth_pos HF0 Hq) as Hbw. split.
    - reals. apply R_div_ok. lra.
    - apply Rdiv_lt_0_compat; assumption. }
  destruct (HQ _ (HF _ Hf1)) as [HQ1 HQ1p].
  destruct (HQ _ (HF _ Hf2)) as [HQ2 HQ2p].
  destruct (HQ _ (HF _ Hf3)) as [HQ3 HQ3p].
  eexists _, _, _, _, _, _, _. split.
  - apply (updateVowel_run this Hrun Hctx Hfil Hi HQ1 HQ2 HQ3).
  - split; [reflexivity |]. fold s. repeat split; auto.
Qed.

Lemma running_started (now x y g q vol : R) : started (running now x y g q vol).
Proof.
  unfold started, running. cbn. repeat split; try discriminate; reflexivity.
Qed.

(** C5: on a started synthesizer with the position in the unit square, the
    gender factor in [[0,2]] and the quality factor in [[-1,1]],
    [interpolateFormants] returns exactly three positive frequencies and the
    recompute pass hands the filters exactly three centre frequencies and
    three Q values, all strictly positive. *)
Theorem recompute_three_positive (this : VowelSynthesizerCore R) :
  started this ->
  0 <= vowelX this <= 1 -> 0 <= vowelY this <= 1 ->
  0 <= genderFactor this <= 2 ->
  -1 <= qualityFactor this <= 1 ->
  (exists f1 f2 f3,
      interpolateFormants (vowelX this) (vowelY this) = Ok [f1; f2; f3] /\
      0 < f1 /\ 0 < f2 /\ 0 < f3) /\
  (exists calls F1 Q1 F2 Q2 F3 Q3,
      updateVowel this = Ok (this, calls) /\
      formantOutput calls = [(F1, Q1); (F2, Q2); (F3, Q3)] /\
      0 < F1 /\ 0 < Q1 /\ 0 < F2 /\ 0 < Q2 /\ 0 < F3 /\ 0 < Q3).
Proof.
  intros Hst _ _ Hg Hq. split.
  - apply interpolateFormants_total.
  - apply updateVowel_total; assumption.
Qed.

Lemma recompute_three_positive_witness :
  exists f1 f2 f3,
    interpolateFormants (num := R) 0.5 0.5 = Ok [f1; f2; f3] /\
    0 < f1 /\ 0 < f2 /\ 0 < f3.
Proof.
  pose proof (running_started 0 0.5 0.5 0 0 25) as Hst.
  assert (Hx : 0 <= 0.5 <= 1) by lra.
  assert (Hg : 0 <= 0 <= 2) by lra.
  assert (Hq : -1 <= 0 <= 1) by lra.
  exact (proj1 (recompute_three_positive Hst Hx Hx Hg Hq)).
Defined.

(** Two started synthesizers that agree on the control values read by the
    recompute pass hand the same pairs to the filters, or raise alike. *)
Lemma outcome_of_controlState (this this' : VowelSynthesizerCore R) :
  started this -> started this' ->
  controlState this = controlState this' ->
  outcome (updateVowel this) = outcome (updateVowel this').
Proof.
  intros Hst Hst' Hcs.
  destruct (started_inv Hst) as (ctx & osc & n0 & n1 & n2 & gain & Hrun & Hctx & _ & Hfil & _).
  destruct (started_inv Hst') as (ctx' & osc' & m0 & m1 & m2 & gain' & Hrun' & Hctx' & _ & Hfil' & _).
  unfold controlState in Hcs. injection Hcs as Hx Hy Hg Hq.
  unfold updateVowel.
  rewrite Hrun, Hctx, Hfil, Hrun', Hctx', Hfil', <- Hx, <- Hy, <- Hg, <- Hq.
  destruct (interpolateFormants (vowelX this) (vowelY this)) as [fs | e];
    cbn [bind outcome]; [| reflexivity].
  cbn [seq mapM item nth_error bind].
  repeat match goal with
         | |- context [bind ?m _] =>
             match m with
             | elem _ _ => destruct m as [? | ?]
             | num_div _ _ => destruct m as [? | ?]
             end; cbn [bind outcome]; try reflexivity
         end.
Qed.

(** C8: a second recompute pass with unchanged control values hands the
    filters the same three (frequency, Q) pairs as the first: the pass leaves
    the synthesizer object as it found it, and what it hands over depends on
    the control values only, not on the host's clock or node handles. *)
Theorem recompute_idempotent (this this' s1 : VowelSynthesizerCore R) (calls1 : list (call R)) :
  started this ->
  updateVowel this = Ok (s1, calls1) ->
  started this' -> controlState this' = controlState s1 ->
  s1 = this /\
  exists calls2,
    updateVowel this' = Ok (this', calls2) /\
    formantOutput calls2 = formantOutput calls1.
Proof.
  intros Hst Hrun1 Hst' Hcs.
  pose proof (updateVowel_keeps_state this Hrun1) as Hs1. subst s1.
  split; [reflexivity |].
  pose proof (outcome_of_controlState Hst' Hst Hcs) as Hout.
  rewrite Hrun1 in Hout. cbn [outcome] in Hout.
  destruct (updateVowel this') as [[s2 calls2] | e] eqn:Hrun2; cbn [outcome] in Hout;
    [| discriminate].
  pose proof (updateVowel_keeps_state this' Hrun2) as Hs2. subst s2.
  exists calls2. split; [reflexivity |]. congruence.
Qed.

Lemma recompute_idempotent_witness :
  exists calls1 calls2,
    updateVowel (running (num := R) 0 0.5 0.5 0 0 25) =
      Ok (running 0 0.5 0.5 0 0 25, calls1) /\
    updateVowel (running (num := R) 1 0.5 0.5 0 0 25) =
      Ok (running 1 0.5 0.5 0 0 25, calls2) /\
    formantOutput calls2 = formantOutput calls1.
Proof.
  pose proof (running_started 0 0.5 0.5 0 0 25) as Hst.
  pose proof (running_started 1 0.5 0.5 0 0 25) as Hst'.
  assert (Hg : 0 <= genderFactor (running (num := R) 0 0.5 0.5 0 0 25) <= 2)
    by (cbn [genderFactor running]; lra).
  assert (Hq : -1 <= qualityFactor (running (num := R) 0 0.5 0.5 0 0 25) <= 1)
    by (cbn [qualityFactor running]; lra).
  destruct (updateVowel_total Hst Hg Hq) as (calls1 & _ & _ & _ & _ & _ & _ & Hrun1 & _).
  destruct (recompute_idempotent Hst Hrun1 Hst' eq_refl) as (_ & calls2 & Hrun2 & Hout).
  exists calls1, calls2. repeat split; assumption.
Defined.

(** ** Pitch and volume *)

(** C9, as the program has it: [setVolume] stores the value in the object;
    on a started synthesizer [setPitch] and [setVolume] make exactly one call
    on the host, carrying the given value unchanged; on a synthesizer that is
    not running neither makes a call. *)
Theorem pitch_volume_pass_through (this : VowelSynthesizerCore R) (f0 vol : R) :
  volume (set_volume this vol) = vol /\
  controlState (set_volume this vol) = controlState this /\
  (started this ->
   exists ctx osc gain,
     audioContext this = Some ctx /\ oscillator this = Some osc /\
     masterGain this = Some gain /\
     setPitch this f0 =
       Ok (this, [setTargetAtTime (Frequency osc) f0 (currentTime ctx) 0.02]) /\
     setVolume this vol =
       Ok (set_volume this vol, [setValueAtTime (Gain gain) vol (currentTime ctx)])) /\
  (isRunning this = false ->
   setPitch this f0 = Ok (this, []) /\
   setVolume this vol = Ok (set_volume this vol, [])).
Proof.
  split; [reflexivity |]. split; [reflexivity |]. split.
  - intros Hst.
    destruct (started_inv Hst) as (ctx & osc & n0 & n1 & n2 & gain & Hrun & Hctx & Hosc & _ & Hgain).
    exists ctx, osc, gain. repeat split; try assumption.
    + unfold setPitch. rewrite Hrun, Hosc, Hctx. reflexivity.
    + unfold setVolume. cbn [isRunning masterGain audioContext set_volume].
      rewrite Hrun, Hgain, Hctx. reflexivity.
  - intros Hrun. split.
    + unfold setPitch. rewrite Hrun. reflexivity.
    + unfold setVolume. cbn [isRunning masterGain audioContext set_volume].
      rewrite Hrun. reflexivity.
Qed.

Lemma pitch_volume_pass_through_witness :
  setPitch (running (num := R) 0 0.5 0.5 0 0 25) 220 =
    Ok (running 0 0.5 0.5 0 0 25, [setTargetAtTime (Frequency 0%nat) 220 0 0.02]) /\
  setVolume (running (num := R) 0 0.5 0.5 0 0 25) 40 =
    Ok (running 0 0.5 0.5 0 0 40, [setValueAtTime (Gain 5%nat) 40 0]) /\
  setPitch (num := R) initial 220 = Ok (initial, []).
Proof.
  pose proof (running_started 0 0.5 0.5 0 0 25) as Hst.
  destruct (pitch_volume_pass_through (running (num := R) 0 0.5 0.5 0 0 25) 220 40)
    as (_ & _ & Hon & _).
  destruct (Hon Hst) as (ctx & osc & gain & Hctx & Hosc & Hgain & Hp & Hv).
  injection Hctx as <-. injection Hosc as <-. injection Hgain as <-.
  destruct (pitch_volume_pass_through (initial (num := R)) 220 40) as (_ & _ & _ & Hoff).
  destruct (Hoff eq_refl) as [Hp0 _].
  split; [exact Hp |]. split; [exact Hv | exact Hp0].
Defined.

(** C9 as stated fails: on the object as constructed (not running) a pitch is
    neither stored nor handed to the host. *)
Lemma setPitch_not_passed_when_stopped :
  setPitch (num := R) initial 440 = Ok (initial, []) /\
  ~ (exists this' calls p now tc,
        setPitch (num := R) initial 440 = Ok (this', calls) /\
        In (setTargetAtTime p 440 now tc) calls).
Proof.
  split; [reflexivity |].
  intros (this' & calls & p & now & tc & Hrun & Hin).
  cbn in Hrun. injection Hrun as _ <-. destruct Hin.
Qed.

(** ** Q does not depend on the centre frequency *)








(** At a centre frequency of zero the bandwidth is zero and the quotient is
    not a number.  No control value of the domain leads there: the recompute
    pass meets it when the gender factor is -50/9, where the gender scale
    vanishes. *)
Lemma Q_undefined_at_zero_frequency :
  num_div (num := R) 0 (calculateBandwidth 0 0) = Err NotFinite /\
  num_div (num := R) 0 (calculateBandwidth 0 0) <> Ok (1 / (0.08 * (1 + 0.5 * 0))) /\
  updateVowel (running (num := R) 0 0.5 0.5 (- 50 / 9) 0 25) = Err NotFinite.
Proof.
  assert (Hbw : forall f : R, calculateBandwidth (f * gender_scale (- 50 / 9)) 0 = 0).
  { intros f. rewrite bandwidth_breathy by lra.
    unfold gender_scale. destruct (Rle_dec (- 50 / 9) 1); lra. }
  assert (H0 : calculateBandwidth 0 0 = 0).
  { rewrite bandwidth_breathy by lra. lra. }
  assert (Hd : num_div (num := R) 0 (calculateBandwidth 0 0) = Err NotFinite).
  { rewrite H0. apply R_div_zero. }
  split; [exact Hd |]. split; [rewrite Hd; discriminate |].
  destruct (interpolateFormants_total 0.5 0.5) as (f1 & f2 & f3 & Hi & _).
  unfold updateVowel.
  cbn [isRunning audioContext running vowelX vowelY genderFactor qualityFactor filters].
  rewrite Hi. cbn [bind]. rewrite scale_by_gender_scale.
  cbn [map seq mapM elem nth_error bind]. rewrite Hbw.
  cbv [num_div R_Number]. rewrite R_div_zero. reflexivity.
Qed.

(** ** The interpolation against its reference definition *)

Lemma closest_map (A B : Type) (f : A -> B) (key : B -> R) (l : list A) :
  Reference.closest key (map f l) =
  match Reference.closest (fun a => key (f a)) l with
  | None => None
  | Some (m, rest) => Some (f m, map f rest)
  end.
Proof.
  induction l as [| a l IH]; [reflexivity |].
  cbn [map Reference.closest]. rewrite IH.
  destruct (Reference.closest (fun a0 => key (f a0)) l) as [[m rest] |]; [| reflexivity].
  destruct (Rlt_dec (key (f m)) (key (f a))); reflexivity.
Qed.

Lemma select_map (A B : Type) (f : A -> B) (key : B -> R) (k : nat) (l : list A) :
  Reference.select key k (map f l) = map f (Reference.select (fun a => key (f a)) k l).
Proof.
  revert l. induction k as [| k IH]; intros l; [reflexivity |].
  cbn [Reference.select]. rewrite closest_map.
  destruct (Reference.closest (fun a => key (f a)) l) as [[m rest] |]; [| reflexivity].
  cbn [map]. rewrite IH. reflexivity.
Qed.

Lemma distances_entry_of (x y : R) : distances x y = map (entry_of x y) VOWELS.
Proof. reflexivity. Qed.

(** The three nearest entries are those of the three anchors the reference
    definition selects. *)
Lemma nearest_select (x y : R) :
  nearest x y =
  map (entry_of x y)
      (Reference.select (fun a => Reference.euclidean (pos (snd a)) (x, y)) 3 VOWELS).
Proof.
  unfold nearest. rewrite (firstn_sort_select (@dist R)).
  rewrite distances_entry_of, select_map. reflexivity.
Qed.

(** Over exact reals, where no division of the interpolation fails and
    distances are the mathematical ones: at every query point
    [interpolateFormants] returns the blend of the 3 anchors of least
    distance, ties in catalog order. *)
Lemma interpolateFormants_exact (x y : R) :
  interpolateFormants x y = Ok (Reference.interpolate x y).
Proof.
  destruct (nearest_three x y) as (e0 & e1 & e2 & s & _ & Hn).
  pose proof (nearest_ok x y) as Hok. rewrite Hn in Hok.
  inversion Hok as [| ? ? [Hd0 (a0 & b0 & c0 & Hf0 & _)] Hok1]; subst.
  inversion Hok1 as [| ? ? [Hd1 (a1 & b1 & c1 & Hf1 & _)] Hok2]; subst.
  inversion Hok2 as [| ? ? [Hd2 (a2 & b2 & c2 & Hf2 & _)] _]; subst.
  destruct (interpolate_explicit x y Hn Hf0 Hf1 Hf2 Hd0 Hd1 Hd2) as (_ & _ & Hi).
  rewrite Hi. apply f_equal. clear Hi Hok Hok1 Hok2.
  pose proof (weight_pos Hd0) as Hw0. pose proof (weight_pos Hd1) as Hw1.
  pose proof (weight_pos Hd2) as Hw2.
  rewrite nearest_select in Hn. unfold Reference.interpolate.
  destruct (Reference.select _ 3 VOWELS) as [| k0 [| k1 [| k2 [| k3 l]]]];
    try discriminate Hn.
  cbn [map] in Hn. injection Hn as <- <- <-.
  cbn [entry_of dist data] in *.
  cbn [map combine Reference.sum fold_right fst snd Reference.band].
  unfold Reference.band. rewrite Hf0, Hf1, Hf2. cbn [nth].
  fold (weight (Reference.euclidean (pos (snd k0)) (x, y))).
  fold (weight (Reference.euclidean (pos (snd k1)) (x, y))).
  fold (weight (Reference.euclidean (pos (snd k2)) (x, y))).
  set (w0 := weight (Reference.euclidean (pos (snd k0)) (x, y))) in *.
  set (w1 := weight (Reference.euclidean (pos (snd k1)) (x, y))) in *.
  set (w2 := weight (Reference.euclidean (pos (snd k2)) (x, y))) in *.
  replace (w0 + (w1 + (w2 + 0))) with (w0 + w1 + w2) by ring.
  repeat (apply f_equal2; [ring |]). reflexivity.
Qed.

(** *** The same comparison over the arithmetic of the program

    Nothing below depends on what the numbers are: it holds of binary64 as
    of the reals. *)

Section Refinement.

Context {num : Type} `{Number num}.
Local Open Scope num_scope.

Section Selection.

Variable A : Type.
Variable key : A -> num.

Local Notation "'by_key'" := (fun a b : A => key a - key b) (only parsing).







End Selection.







End Refinement.

(** Over the reals the two conditions hold at every query point. *)
Lemma literal_one_R : lit (num := R) 1.0 = lit 1.
Proof. reals. decimals. field. Qed.

Lemma sign_agrees_R (ds : list R) : sign_agrees ds = true.
Proof.
  unfold sign_agrees. apply forallb_forall. intros a _. apply forallb_forall. intros b _.
  reals. unfold R_ltb.
  destruct (Rlt_dec (Q2R 0) (a - b)), (Rlt_dec b a); try reflexivity; exfalso;
    unfold Q2R in *; cbn [Qnum Qden] in *; lra.
Qed.


(** ** A query at an anchor's own position *)

Lemma euclidean_same (p : R * R) : Reference.euclidean p p = 0.
Proof.
  unfold Reference.euclidean.
  replace ((fst p - fst p) * (fst p - fst p) + (snd p - snd p) * (snd p - snd p))
    with 0 by ring.
  apply sqrt_0.
Qed.

Lemma euclidean_zero (p q : R * R) : Reference.euclidean p q = 0 -> p = q.
Proof.
  unfold Reference.euclidean. intros Hz.
  destruct p as [p1 p2], q as [q1 q2]. cbn [fst snd] in Hz.
  pose proof (Rle_0_sqr (p1 - q1)) as Hs1. pose proof (Rle_0_sqr (p2 - q2)) as Hs2.
  unfold Rsqr in Hs1, Hs2.
  assert (Hnn : 0 <= (p1 - q1) * (p1 - q1) + (p2 - q2) * (p2 - q2)) by lra.
  apply (sqrt_eq_0 _ Hnn) in Hz.
  assert (H1 : p1 - q1 = 0) by (apply Rsqr_0_uniq; unfold Rsqr; lra).
  assert (H2 : p2 - q2 = 0) by (apply Rsqr_0_uniq; unfold Rsqr; lra).
  f_equal; lra.
Qed.

(** No two anchors of the catalog share a position, or a name. *)
Lemma positions_distinct (a b : string * VowelData R) :
  In a VOWELS -> In b VOWELS -> pos (snd a) = pos (snd b) -> a = b.
Proof.
  unfold VOWELS. cbn [In]. intros Ha Hb.
  repeat (destruct Ha as [<- | Ha]; [| try contradiction]);
    repeat (destruct Hb as [<- | Hb]; [| try contradiction]);
    cbn [pos snd]; intros Hpos; try reflexivity;
    exfalso; injection Hpos; reals; intros; lra.
Qed.

Lemma names_NoDup : NoDup (map fst (VOWELS (num := R))).
Proof.
  unfold VOWELS. cbn [map fst].
  repeat (apply NoDup_cons; [cbn [In]; intuition discriminate |]).
  apply NoDup_nil.
Qed.

Lemma distances_NoDup (x y : R) : NoDup (distances x y).
Proof.
  apply NoDup_map_inv with (f := @name R).
  rewrite distances_entry_of, map_map. cbn [entry_of name].
  apply names_NoDup.
Qed.

(** An entry of [distances] at distance zero from an anchor's position is
    that anchor's entry. *)
Lemma entry_at_distance_zero (a : string * VowelData R) (e : Entry R) :
  In a VOWELS ->
  In e (distances (fst (pos (snd a))) (snd (pos (snd a)))) ->
  dist e = 0 ->
  e = entry_of (fst (pos (snd a))) (snd (pos (snd a))) a.
Proof.
  intros Ha He Hd. rewrite distances_entry_of in He.
  apply in_map_iff in He as (b & <- & Hb).
  cbn [entry_of dist] in Hd. apply euclidean_zero in Hd.
  rewrite <- surjective_pairing in Hd.
  rewrite (positions_distinct Hb Ha Hd). reflexivity.
Qed.

Lemma weight_decreasing (d : R) : 0 < d -> weight d < weight 0.
Proof.
  intros Hd. unfold weight, Rdiv. rewrite !Rmult_1_l.
  apply Rinv_lt_contravar; [nra | lra].
Qed.

(** C7: queried at the catalog position of an anchor, the interpolation
    selects that anchor first, and its normalised weight is strictly greater
    than the normalised weight of each of the other two selected anchors. *)
Theorem exact_anchor_dominates (a : string * VowelData R) :
  In a VOWELS ->
  let x := fst (pos (snd a)) in
  let y := snd (pos (snd a)) in
  exists e1 e2 n0 n1 n2,
    nearest x y = [entry_of x y a; e1; e2] /\
    normalizedWeights x y = Ok [n0; n1; n2] /\
    n1 < n0 /\ n2 < n0.
Proof.
  intros Ha x y.
  destruct (nearest_three x y) as (e0 & e1 & e2 & s & Hs & Hn).
  pose proof (nearest_ok x y) as Hok. rewrite Hn in Hok.
  inversion Hok as [| ? ? [Hd0 (a0 & b0 & c0 & Hf0 & _)] Hok1]; subst.
  inversion Hok1 as [| ? ? [Hd1 (a1 & b1 & c1 & Hf1 & _)] Hok2]; subst.
  inversion Hok2 as [| ? ? [Hd2 (a2 & b2 & c2 & Hf2 & _)] _]; subst.
  (* the anchor's own entry lies at distance zero, so the head does too *)
  assert (HE : In (entry_of x y a) (distances x y)).
  { rewrite distances_entry_of. apply in_map, Ha. }
  assert (Hz0 : dist e0 = 0).
  { pose proof (sort_head_least (@dist R) _ Hs _ HE) as Hle.
    cbn [entry_of dist] in Hle. unfold x, y in Hle.
    rewrite <- surjective_pairing, euclidean_same in Hle. lra. }
  assert (Hin : forall e, In e (nearest x y) -> In e (distances x y))
    by (intros e; apply nearest_In).
  rewrite Hn in Hin.
  assert (He0 : e0 = entry_of x y a).
  { apply entry_at_distance_zero; [exact Ha | apply Hin; left; reflexivity | exact Hz0]. }
  (* the other two are different entries, hence farther away *)
  assert (Hnd : NoDup (e0 :: e1 :: e2 :: s)).
  { rewrite <- Hs. apply Permutation_NoDup with (distances x y).
    - apply Permutation_sym, (sort_perm (@dist R)).
    - apply distances_NoDup. }
  assert (Hfar : forall e, In e [e1; e2] -> 0 < dist e).
  { intros e He.
    assert (Hne : e <> e0).
    { intros ->. inversion Hnd as [| ? ? Hnot _]; subst. apply Hnot.
      destruct He as [<- | [<- | []]]; cbn [In]; auto. }
    assert (Hed : In e (distances x y)).
    { apply Hin. right. exact He. }
    pose proof (distances_ok x y) as Hall. rewrite Forall_forall in Hall.
    destruct (Hall e Hed) as [Hge _].
    destruct (Req_dec_T (dist e) 0) as [Hz | Hnz]; [| lra].
    exfalso. apply Hne. rewrite He0.
    apply entry_at_distance_zero; assumption. }
  assert (H1 : 0 < dist e1) by (apply Hfar; left; reflexivity).
  assert (H2 : 0 < dist e2) by (apply Hfar; right; left; reflexivity).
  destruct (interpolate_explicit x y Hn Hf0 Hf1 Hf2 Hd0 Hd1 Hd2) as (_ & Hnw & _).
  rewrite Hz0 in Hnw.
  pose proof (weight_decreasing H1) as Hw1. pose proof (weight_decreasing H2) as Hw2.
  pose proof (weight_pos Hd1) as Hp1. pose proof (weight_pos Hd2) as Hp2.
  rewrite <- He0.
  eexists e1, e2, _, _, _. split; [exact Hn |]. split; [exact Hnw |].
  assert (Ht : 0 < / (weight 0 + weight (dist e1) + weight (dist e2))).
  { apply Rinv_0_lt_compat. lra. }
  unfold Rdiv. split; apply Rmult_lt_compat_r; assumption.
Qed.

Lemma exact_anchor_dominates_witness :
  exists e1 e2 n0 n1 n2,
    nearest (num := R) 0.9 0.9 =
      [entry_of 0.9 0.9
         ("i"%string, {| formants := [lit 270; lit 2290; lit 3010]; pos := (0.9, 0.9) |});
       e1; e2] /\
    normalizedWeights (num := R) 0.9 0.9 = Ok [n0; n1; n2] /\
    n1 < n0 /\ n2 < n0.
Proof.
  assert (Ha : In ("i"%string,
                   {| formants := [lit 270; lit 2290; lit 3010]; pos := (0.9, 0.9) |})
                  (VOWELS (num := R))).
  { left. reflexivity. }
  exact (exact_anchor_dominates Ha).
Defined.

(** ** The query at (0.9, 0.9) *)

Lemma closest_single (A : Type) (d : A -> R) (a : A) :
  Reference.closest d [a] = Some (a, []).
Proof. reflexivity. Qed.

Lemma closest_cons_keep (A : Type) (d : A -> R) (a m : A) (l rest : list A) :
  Reference.closest d l = Some (m, rest) -> d m < d a ->
  Reference.closest d (a :: l) = Some (m, a :: rest).
Proof.
  intros Hl Hlt. cbn [Reference.closest]. rewrite Hl.
  destruct (Rlt_dec (d m) (d a)); [reflexivity | contradiction].
Qed.

Lemma closest_cons_new (A : Type) (d : A -> R) (a m : A) (l rest : list A) :
  Reference.closest d l = Some (m, rest) -> d a <= d m ->
  Reference.closest d (a :: l) = Some (a, l).
Proof.
  intros Hl Hle. cbn [Reference.closest]. rewrite Hl.
  destruct (Rlt_dec (d m) (d a)); [lra | reflexivity].
Qed.

Lemma sqdist_nonneg (p q : R * R) : 0 <= sqdist p q.
Proof.
  unfold sqdist.
  pose proof (Rle_0_sqr (fst p - fst q)) as H1.
  pose proof (Rle_0_sqr (snd p - snd q)) as H2.
  unfold Rsqr in H1, H2. lra.
Qed.

Lemma euclidean_lt (p q r : R * R) :
  sqdist p r < sqdist q r -> Reference.euclidean p r < Reference.euclidean q r.
Proof.
  intros Hlt. apply sqrt_lt_1_alt. split; [apply sqdist_nonneg | exact Hlt].
Qed.

Lemma euclidean_le (p q r : R * R) :
  sqdist p r <= sqdist q r -> Reference.euclidean p r <= Reference.euclidean q r.
Proof.
  intros Hle. apply sqrt_le_1_alt. exact Hle.
Qed.

Lemma sqrt_between (c lo hi : R) :
  0 <= lo -> 0 <= hi -> lo * lo < c < hi * hi -> lo < R_sqrt.sqrt c < hi.
Proof.
  intros Hlo Hhi [H1 H2]. split.
  - rewrite <- (sqrt_square lo) by exact Hlo.
    apply sqrt_lt_1_alt. split; [nra | exact H1].
  - rewrite <- (sqrt_square hi) by exact Hhi.
    apply sqrt_lt_1_alt. split; [nra | exact H2].
Qed.

(** Decides a comparison of two distances to a point with decimal coordinates. *)
Ltac compare_distances :=
  cbn beta; cbn [snd pos];
  first [apply euclidean_lt | apply euclidean_le];
  unfold sqdist; cbn [fst snd pos]; reals; lra.

(** Finds the closest element of a concrete list, one comparison per element. *)
Ltac find_closest :=
  lazymatch goal with
  | |- Reference.closest _ [_] = _ => apply closest_single
  | |- Reference.closest ?d (?a :: ?l) = _ =>
      let Hl := fresh "Hl" in
      eassert (Hl : Reference.closest d l = _) by find_closest;
      first [ apply (closest_cons_keep _ _ _ Hl); compare_distances
            | apply (closest_cons_new _ _ _ Hl); compare_distances ]
  end.

Lemma select_at_beet :
  Reference.select (fun a => Reference.euclidean (pos (snd a)) (0.9, 0.9)) 3 VOWELS =
  [("i"%string, {| formants := [lit 270; lit 2290; lit 3010]; pos := (lit 0.9, lit 0.9) |});
   ("I"%string, {| formants := [lit 390; lit 1990; lit 2550]; pos := (lit 0.85, lit 0.75) |});
   ("e"%string, {| formants := [lit 530; lit 1840; lit 2480]; pos := (lit 0.8, lit 0.6) |})].
Proof.
  unfold VOWELS.
  do 3 (cbn [Reference.select];
        match goal with
        | |- context [Reference.closest ?d ?l] =>
            let Hc := fresh "Hc" in
            eassert (Hc : Reference.closest d l = _) by find_closest;
            rewrite Hc; clear Hc
        end).
  reflexivity.
Qed.

Lemma nearest_at_beet :
  nearest (num := R) 0.9 0.9 =
  map (entry_of 0.9 0.9)
      [("i"%string, {| formants := [lit 270; lit 2290; lit 3010]; pos := (lit 0.9, lit 0.9) |});
       ("I"%string, {| formants := [lit 390; lit 1990; lit 2550]; pos := (lit 0.85, lit 0.75) |});
       ("e"%string, {| formants := [lit 530; lit 1840; lit 2480]; pos := (lit 0.8, lit 0.6) |})].
Proof. rewrite nearest_select, select_at_beet. reflexivity. Qed.

Lemma weight_between (d lo hi wlo whi : R) :
  0 <= lo -> lo < d < hi ->
  wlo * (hi + 0.01) <= 1 -> 1 <= whi * (lo + 0.01) ->
  wlo < weight d < whi.
Proof.
  intros Hlo [Hd1 Hd2] Hw1 Hw2.
  assert (Hw : 0 < weight d) by (apply weight_pos; lra).
  assert (HwD : weight d * (d + 0.01) = 1).
  { unfold weight. field. lra. }
  split.
  - apply Rmult_lt_reg_r with (hi + 0.01); [lra |].
    apply Rle_lt_trans with 1; [exact Hw1 |].
    rewrite <- HwD. apply Rmult_lt_compat_l; [exact Hw | lra].
  - apply Rmult_lt_reg_r with (lo + 0.01); [lra |].
    apply Rlt_le_trans with 1; [| exact Hw2].
    rewrite <- HwD. apply Rmult_lt_compat_l; [exact Hw | lra].
Qed.

Lemma quotient_between (w t lo hi : R) :
  0 < t -> lo * t < w < hi * t -> lo < w / t < hi.
Proof.
  intros Ht [H1 H2].
  assert (Hq : w / t * t = w) by (field; lra).
  split.
  - apply Rmult_lt_reg_r with t; [exact Ht |]. rewrite Hq. exact H1.
  - apply Rmult_lt_reg_r with t; [exact Ht |]. rewrite Hq. exact H2.
Qed.

(** The formants interpolated at (0.9, 0.9): anchors "i", "I" and "e" are
    blended, and the first formant lands above 270 * 1.05 = 283.5. *)
Lemma formants_at_beet :
  exists f1 f2 f3,
    interpolateFormants (num := R) 0.9 0.9 = Ok [f1; f2; f3] /\
    283.85 < f1 < 283.87 /\ 2260 < f2 < 2262 /\ 2969 < f3 < 2971.
Proof.
  pose proof nearest_at_beet as Hn. cbn [map] in Hn.
  eassert (Hi := interpolate_explicit 0.9 0.9 Hn eq_refl eq_refl eq_refl _ _ _).
  Unshelve. 2-4: (cbn [entry_of dist]; apply sqrt_pos).
  destruct Hi as (_ & _ & Hi).
  cbn [entry_of dist snd pos] in Hi. reals.
  rewrite euclidean_same in Hi.
  set (w0 := weight 0) in *.
  set (w1 := weight (Reference.euclidean (0.85, 0.75) (0.9, 0.9))) in *.
  set (w2 := weight (Reference.euclidean (0.8, 0.6) (0.9, 0.9))) in *.
  assert (Hw0 : w0 = 100) by (unfold w0, weight; lra).
  assert (Hw1 : 5.948 < w1 < 5.949).
  { apply weight_between with (lo := 0.15811) (hi := 0.15812); try lra.
    apply sqrt_between; cbn [fst snd]; lra. }
  assert (Hw2 : 3.0653 < w2 < 3.0655).
  { apply weight_between with (lo := 0.31622) (hi := 0.31623); try lra.
    apply sqrt_between; cbn [fst snd]; lra. }
  set (t := w0 + w1 + w2) in *.
  assert (Ht : 0 < t) by (unfold t; lra).
  assert (Hsum : w0 / t + w1 / t + w2 / t = 1) by (unfold t; field; lra).
  assert (Hn1 : 0.05455 < w1 / t < 0.05458).
  { apply quotient_between; [exact Ht | unfold t; lra]. }
  assert (Hn2 : 0.02811 < w2 / t < 0.02813).
  { apply quotient_between; [exact Ht | unfold t; lra]. }
  eexists _, _, _. split; [exact Hi |]. lra.
Qed.

(** The recompute pass at position (0.9, 0.9) with neutral gender and
    quality. *)
Lemma updateVowel_at_beet (this : VowelSynthesizerCore R) :
  started this ->
  controlState this = (0.9, 0.9, 0, 0) ->
  exists calls F1 F2 F3,
    updateVowel this = Ok (this, calls) /\
    map fst (formantOutput calls) = [F1; F2; F3] /\
    283.85 < F1 < 283.87 /\ 2260 < F2 < 2262 /\ 2969 < F3 < 2971.
Proof.
  intros Hst Hcs. unfold controlState in Hcs. injection Hcs as Hx Hy Hg Hq.
  destruct (started_inv Hst) as (ctx & osc & n0 & n1 & n2 & gain & Hrun & Hctx & _ & Hfil & _).
  destruct formants_at_beet as (f1 & f2 & f3 & Hi & Hf1 & Hf2 & Hf3).
  assert (Hi' : interpolateFormants (vowelX this) (vowelY this) = Ok [f1; f2; f3])
    by (rewrite Hx, Hy; exact Hi).
  assert (Hs : gender_scale (genderFactor this) = 1).
  { rewrite Hg. unfold gender_scale. destruct (Rle_dec 0 1); lra. }
  assert (HQ : forall f, 0 < f ->
             exists Q, num_div (f * gender_scale (genderFactor this))
                         (calculateBandwidth (f * gender_scale (genderFactor this))
                            (qualityFactor this)) = Ok Q).
  { intros f Hf. rewrite Hs, Hq, Rmult_1_r. eexists. apply num_div_ok.
    assert (Hb : 0 < calculateBandwidth f 0) by (apply bandwidth_pos; lra). lra. }
  destruct (HQ f1) as [Q1 HQ1]; [lra |].
  destruct (HQ f2) as [Q2 HQ2]; [lra |].
  destruct (HQ f3) as [Q3 HQ3]; [lra |].
  eexists _, _, _, _. split.
  - apply (updateVowel_run this Hrun Hctx Hfil Hi' HQ1 HQ2 HQ3).
  - split; [reflexivity |]. rewrite Hs, !Rmult_1_r. auto.
Qed.

(** C1, as the program has it: at position (0.9, 0.9) with gender 0 and
    quality 0 the recompute pass yields three centre frequencies of which the
    second and third lie within 5% of 2290 Hz and 3010 Hz, while the first
    lies above 270 * 1.05, within 5.2% of 270 Hz. *)
Theorem recompute_at_beet (this : VowelSynthesizerCore R) :
  started this ->
  controlState this = (0.9, 0.9, 0, 0) ->
  exists calls F1 F2 F3,
    updateVowel this = Ok (this, calls) /\
    map fst (formantOutput calls) = [F1; F2; F3] /\
    270 * 1.05 < F1 /\
    Rabs (F1 - 270) <= 0.052 * 270 /\
    Rabs (F2 - 2290) <= 0.05 * 2290 /\
    Rabs (F3 - 3010) <= 0.05 * 3010.
Proof.
  intros Hst Hcs.
  destruct (updateVowel_at_beet Hst Hcs) as (calls & F1 & F2 & F3 & Hrun & Hout & H1 & H2 & H3).
  exists calls, F1, F2, F3. split; [exact Hrun |]. split; [exact Hout |].
  split; [lra |].
  repeat split; apply Rabs_le; lra.
Qed.

Lemma recompute_at_beet_witness :
  exists calls F1 F2 F3,
    updateVowel (running (num := R) 0 0.9 0.9 0 0 25) = Ok (running 0 0.9 0.9 0 0 25, calls) /\
    map fst (formantOutput calls) = [F1; F2; F3] /\
    270 * 1.05 < F1 /\
    Rabs (F1 - 270) <= 0.052 * 270 /\
    Rabs (F2 - 2290) <= 0.05 * 2290 /\
    Rabs (F3 - 3010) <= 0.05 * 3010.
Proof.
  exact (recompute_at_beet (running_started 0 0.9 0.9 0 0 25) eq_refl).
Defined.

(** C1 as stated fails: the first centre frequency is not within 5% of
    270 Hz. *)
Lemma first_formant_outside_five_percent :
  ~ (exists s calls F1 F2 F3,
        updateVowel (running (num := R) 0 0.9 0.9 0 0 25) = Ok (s, calls) /\
        map fst (formantOutput calls) = [F1; F2; F3] /\
        Rabs (F1 - 270) <= 0.05 * 270 /\
        Rabs (F2 - 2290) <= 0.05 * 2290 /\
        Rabs (F3 - 3010) <= 0.05 * 3010).
Proof.
  intros (s & calls & F1 & F2 & F3 & Hrun & Hout & H1 & _).
  destruct (updateVowel_at_beet (running_started 0 0.9 0.9 0 0 25) eq_refl)
    as (calls' & G1 & G2 & G3 & Hrun' & Hout' & HG1 & _).
  rewrite Hrun' in Hrun. injection Hrun as _ <-.
  rewrite Hout' in Hout. injection Hout as <- _ _.
  unfold Rabs in H1. destruct (Rcase_abs _) in H1; lra.
Qed.

(** * Further properties of the parameter model *)

(** ** What the three nearest entries are *)

Lemma ascending_head_tail (A : Type) (key : A -> R) (a : A) (l : list A) :
  ascending key (a :: l) -> Forall (fun b => key a <= key b) l /\ ascending key l.
Proof. intros Hasc. inversion Hasc; subst. split; assumption. Qed.

(** The sorted list of entries: a duplicate-free rearrangement of
    [distances] in ascending order, of which [nearest] is the first three. *)
Lemma nearest_structure (x y : R) :
  exists e0 e1 e2 rest,
    nearest x y = [e0; e1; e2] /\
    Permutation (e0 :: e1 :: e2 :: rest) (distances x y) /\
    NoDup (e0 :: e1 :: e2 :: rest) /\
    dist e0 <= dist e1 /\ dist e1 <= dist e2 /\
    Forall (fun e => dist e2 <= dist e) rest.
Proof.
  destruct (nearest_three x y) as (e0 & e1 & e2 & s & Hs & Hn).
  exists e0, e1, e2, s. split; [exact Hn |].
  assert (Hperm : Permutation (e0 :: e1 :: e2 :: s) (distances x y)).
  { rewrite <- Hs. apply (sort_perm (@dist R)). }
  split; [exact Hperm |]. split.
  - apply Permutation_NoDup with (distances x y).
    + apply Permutation_sym, Hperm.
    + apply distances_NoDup.
  - pose proof (sort_ascending (@dist R) (distances x y)) as Hasc. rewrite Hs in Hasc.
    apply ascending_head_tail in Hasc as [H0 Hasc].
    apply ascending_head_tail in Hasc as [H1 Hasc].
    apply ascending_head_tail in Hasc as [H2 _].
    inversion H0; subst. inversion H1; subst. repeat split; assumption.
Qed.



(** ** The normalised weights *)

(** At every query point of the unit square the three normalised weights
    are positive, do not increase from the nearest anchor to the third, and
    sum to one up to the rounding of the arithmetic (exactly, over the
    reals).  The unit square is where the chart puts the position; on
    binary64 a query point far enough away overflows the squared distance
    and every weight comes out as NaN. *)
Theorem normalizedWeights_convex (x y : R) :
  0 <= x <= 1 -> 0 <= y <= 1 ->
  exists n0 n1 n2,
    normalizedWeights x y = Ok [n0; n1; n2] /\
    close 1e-12 (n0 + n1 + n2) 1 /\
    0 < n2 /\ n2 <= n1 /\ n1 <= n0.
Proof.
  intros _ _.
  destruct (nearest_structure x y) as (e0 & e1 & e2 & s & Hn & _ & _ & H01 & H12 & _).
  pose proof (nearest_ok x y) as Hok. rewrite Hn in Hok.
  inversion Hok as [| ? ? [Hd0 (a0 & b0 & c0 & Hf0 & _)] Hok1]; subst.
  inversion Hok1 as [| ? ? [Hd1 (a1 & b1 & c1 & Hf1 & _)] Hok2]; subst.
  inversion Hok2 as [| ? ? [Hd2 (a2 & b2 & c2 & Hf2 & _)] _]; subst.
  destruct (interpolate_explicit x y Hn Hf0 Hf1 Hf2 Hd0 Hd1 Hd2) as (_ & Hnw & _).
  pose proof (weight_pos Hd0) as Hw0. pose proof (weight_pos Hd1) as Hw1.
  pose proof (weight_pos Hd2) as Hw2.
  assert (Hmono : forall d d', 0 <= d -> d <= d' -> weight d' <= weight d).
  { intros d d' Hd Hdd. unfold weight, Rdiv. rewrite !Rmult_1_l.
    apply Rinv_le_contravar; lra. }
  pose proof (Hmono _ _ Hd0 H01) as Hw10. pose proof (Hmono _ _ Hd1 H12) as Hw21.
  set (w0 := weight (dist e0)) in *. set (w1 := weight (dist e1)) in *.
  set (w2 := weight (dist e2)) in *.
  assert (Ht : 0 < / (w0 + w1 + w2)) by (apply Rinv_0_lt_compat; lra).
  eexists _, _, _. split; [exact Hnw |]. split.
  { unfold close.
    replace (w0 / (w0 + w1 + w2) + w1 / (w0 + w1 + w2) + w2 / (w0 + w1 + w2) - 1)
      with 0 by (field; lra).
    rewrite Rabs_R0. lra. }
  unfold Rdiv. split; [apply Rmult_lt_0_compat; assumption |].
  split; apply Rmult_le_compat_r; lra.
Qed.

Lemma normalizedWeights_convex_witness :
  exists n0 n1 n2,
    normalizedWeights (num := R) 0.5 0.95 = Ok [n0; n1; n2] /\
    close 1e-12 (n0 + n1 + n2) 1 /\
    0 < n2 /\ n2 <= n1 /\ n1 <= n0.
Proof.
  assert (Hx : 0 <= 0.5 <= 1) by lra.
  assert (Hy : 0 <= 0.95 <= 1) by lra.
  exact (normalizedWeights_convex Hx Hy).
Defined.

(** ** The interpolated formants stay within the catalog *)

Lemma distances_in_range (x y : R) :
  Forall (fun e => in_catalog_range (formants (data e))) (distances x y).
Proof.
  unfold distances, VOWELS. cbn [map fst snd pos].
  repeat (apply Forall_cons;
          [cbn [data formants]; eexists _, _, _; split; [reflexivity | reals; lra] |]).
  apply Forall_nil.
Qed.

Lemma convex_between (a0 a1 a2 n0 n1 n2 lo hi : R) :
  n0 + n1 + n2 = 1 -> 0 <= n0 -> 0 <= n1 -> 0 <= n2 ->
  lo <= a0 <= hi -> lo <= a1 <= hi -> lo <= a2 <= hi ->
  lo <= a0 * n0 + a1 * n1 + a2 * n2 <= hi.
Proof. intros Hsum H0 H1 H2 Ha0 Ha1 Ha2. nra. Qed.

Lemma convex_lt (a0 a1 a2 b0 b1 b2 n0 n1 n2 : R) :
  0 < n0 -> 0 <= n1 -> 0 <= n2 ->
  a0 < b0 -> a1 < b1 -> a2 < b2 ->
  a0 * n0 + a1 * n1 + a2 * n2 < b0 * n0 + b1 * n1 + b2 * n2.
Proof. intros H0 H1 H2 Ha0 Ha1 Ha2. nra. Qed.

(** The interpolation as a blend: positive weights that sum to one, applied
    to the formants of three catalog anchors. *)
Lemma interpolate_blend (x y : R) :
  exists a0 b0 c0 a1 b1 c1 a2 b2 c2 n0 n1 n2,
    interpolateFormants x y =
      Ok [a0 * n0 + a1 * n1 + a2 * n2;
          b0 * n0 + b1 * n1 + b2 * n2;
          c0 * n0 + c1 * n1 + c2 * n2] /\
    n0 + n1 + n2 = 1 /\ 0 < n0 /\ 0 < n1 /\ 0 < n2 /\
    in_catalog_range [a0; b0; c0] /\
    in_catalog_range [a1; b1; c1] /\
    in_catalog_range [a2; b2; c2].
Proof.
  destruct (nearest_three x y) as (e0 & e1 & e2 & s & _ & Hn).
  assert (Hin : forall e, In e [e0; e1; e2] -> 0 <= dist e /\ in_catalog_range (formants (data e))).
  { intros e He. rewrite <- Hn in He. apply nearest_In in He.
    pose proof (distances_ok x y) as Hok. pose proof (distances_in_range x y) as Hr.
    rewrite Forall_forall in Hok, Hr. split; [apply Hok, He | apply Hr, He]. }
  destruct (Hin e0) as [Hd0 Hr0]; [cbn [In]; auto |].
  destruct (Hin e1) as [Hd1 Hr1]; [cbn [In]; auto |].
  destruct (Hin e2) as [Hd2 Hr2]; [cbn [In]; auto |].
  destruct Hr0 as (a0 & b0 & c0 & Hf0 & Hr0).
  destruct Hr1 as (a1 & b1 & c1 & Hf1 & Hr1).
  destruct Hr2 as (a2 & b2 & c2 & Hf2 & Hr2).
  destruct (interpolate_explicit x y Hn Hf0 Hf1 Hf2 Hd0 Hd1 Hd2) as (_ & _ & Hi).
  pose proof (weight_pos Hd0) as Hw0. pose proof (weight_pos Hd1) as Hw1.
  pose proof (weight_pos Hd2) as Hw2.
  set (w0 := weight (dist e0)) in *. set (w1 := weight (dist e1)) in *.
  set (w2 := weight (dist e2)) in *. set (t := w0 + w1 + w2) in *.
  assert (Ht : 0 < / t) by (apply Rinv_0_lt_compat; unfold t; lra).
  exists a0, b0, c0, a1, b1, c1, a2, b2, c2, (w0 / t), (w1 / t), (w2 / t).
  split; [exact Hi |].
  split; [unfold t; field; lra |].
  split; [apply Rmult_lt_0_compat; assumption |].
  split; [apply Rmult_lt_0_compat; assumption |].
  split; [apply Rmult_lt_0_compat; assumption |].
  split; [exists a0, b0, c0; split; [reflexivity | exact Hr0] |].
  split; [exists a1, b1, c1; split; [reflexivity | exact Hr1] |].
  exists a2, b2, c2; split; [reflexivity | exact Hr2].
Qed.

Lemma in_catalog_range_inv (a b c : R) :
  in_catalog_range [a; b; c] ->
  270 <= a <= 860 /\ 840 <= b <= 2290 /\ 1690 <= c <= 3010 /\ a < b /\ b < c.
Proof.
  intros (a' & b' & c' & E & H). injection E as -> -> ->. exact H.
Qed.

(** At every query point of the unit square each interpolated band lies
    within the range that band takes over the catalog, and the three bands
    come out in increasing order: the interpolation never extrapolates.
    (On binary64 a query point far outside overflows and gives NaN.) *)
Theorem interpolateFormants_within_catalog (x y : R) :
  0 <= x <= 1 -> 0 <= y <= 1 ->
  exists f1 f2 f3,
    interpolateFormants x y = Ok [f1; f2; f3] /\
    270 <= f1 <= 860 /\ 840 <= f2 <= 2290 /\ 1690 <= f3 <= 3010 /\
    f1 < f2 /\ f2 < f3.
Proof.
  intros _ _.
  destruct (interpolate_blend x y)
    as (a0 & b0 & c0 & a1 & b1 & c1 & a2 & b2 & c2 & n0 & n1 & n2 &
        Hi & Hsum & Hn0 & Hn1 & Hn2 & Hr0 & Hr1 & Hr2).
  apply in_catalog_range_inv in Hr0 as (Ha0 & Hb0 & Hc0 & Hab0 & Hbc0).
  apply in_catalog_range_inv in Hr1 as (Ha1 & Hb1 & Hc1 & Hab1 & Hbc1).
  apply in_catalog_range_inv in Hr2 as (Ha2 & Hb2 & Hc2 & Hab2 & Hbc2).
  eexists _, _, _. split; [exact Hi |].
  split; [apply convex_between; lra |].
  split; [apply convex_between; lra |].
  split; [apply convex_between; lra |].
  split; apply convex_lt; lra.
Qed.

Lemma interpolateFormants_within_catalog_witness :
  exists f1 f2 f3,
    interpolateFormants (num := R) 0.5 0.95 = Ok [f1; f2; f3] /\
    270 <= f1 <= 860 /\ 840 <= f2 <= 2290 /\ 1690 <= f3 <= 3010 /\
    f1 < f2 /\ f2 < f3.
Proof.
  assert (Hx : 0 <= 0.5 <= 1) by lra.
  assert (Hy : 0 <= 0.95 <= 1) by lra.
  exact (interpolateFormants_within_catalog Hx Hy).
Defined.

(** ** Gender scale and bandwidth as functions of their factor *)

Lemma gender_scale_increasing (g1 g2 : R) :
  g1 < g2 ->
  gender_scale g1 < gender_scale g2 /\
  gender_scale g2 - gender_scale g1 <= 0.25 * (g2 - g1).
Proof.
  intros Hg. unfold gender_scale.
  destruct (Rle_dec g1 1), (Rle_dec g2 1); lra.
Qed.

(** Over the range [[0,2]] of the gender factor the gender scale has no
    jump at its breakpoint: it never decreases as the factor grows and rises
    by no more than 0.25 per unit (up to rounding); two factors at least
    0.005 apart, as any two positions of the slider are, give different
    scales; and the scale lies between 1 and 1.43. *)
Theorem scaleFormantsForGender_monotone (fs : list R) (g1 g2 : R) :
  0 <= g1 -> g1 <= g2 -> g2 <= 2 ->
  exists s1 s2,
    scaleFormantsForGender fs g1 = map (fun f => f * s1) fs /\
    scaleFormantsForGender fs g2 = map (fun f => f * s2) fs /\
    s1 <= s2 /\
    s2 - s1 <= 0.25 * (g2 - g1) + 1e-12 /\
    (g1 + 0.005 <= g2 -> s1 < s2) /\
    1 <= s1 /\ s2 <= 1.43.
Proof.
  intros H0 Hg H2. exists (gender_scale g1), (gender_scale g2).
  split; [apply scale_by_gender_scale |]. split; [apply scale_by_gender_scale |].
  assert (Hlip : gender_scale g2 - gender_scale g1 <= 0.25 * (g2 - g1)).
  { unfold gender_scale. destruct (Rle_dec g1 1), (Rle_dec g2 1); lra. }
  split; [| split; [| split]].
  - unfold gender_scale. destruct (Rle_dec g1 1), (Rle_dec g2 1); lra.
  - lra.
  - intros Hstep. assert (Hlt : g1 < g2) by lra.
    apply (gender_scale_increasing Hlt).
  - unfold gender_scale.
    destruct (Rle_dec g1 1), (Rle_dec g2 1); lra.
Qed.

Lemma scaleFormantsForGender_monotone_witness :
  exists s1 s2,
    scaleFormantsForGender [270; 2290; 3010] 0.99 = map (fun f => f * s1) [270; 2290; 3010] /\
    scaleFormantsForGender [270; 2290; 3010] 1.01 = map (fun f => f * s2) [270; 2290; 3010] /\
    s1 < s2 /\ s2 - s1 <= 0.25 * (1.01 - 0.99) + 1e-12.
Proof.
  assert (H0 : 0 <= 0.99) by lra.
  assert (Hg : 0.99 <= 1.01) by lra.
  assert (H2 : 1.01 <= 2) by lra.
  destruct (scaleFormantsForGender_monotone [270; 2290; 3010] H0 Hg H2)
    as (s1 & s2 & H1 & H2' & _ & Hlip & Hstep & _).
  assert (H005 : 0.99 + 0.005 <= 1.01) by lra.
  exists s1, s2. split; [exact H1 |]. split; [exact H2' |].
  split; [exact (Hstep H005) | exact Hlip].
Defined.

Lemma bandwidth_multiplier (centerFreq q : R) :
  exists mult,
    calculateBandwidth centerFreq q = centerFreq * 0.08 * mult /\
    mult = (if Rle_dec 0 q then 1 + 0.5 * q else 1 + 0.3 * q).
Proof.
  destruct (Rle_dec 0 q) as [Hq | Hq].
  - exists (1 + 0.5 * q). split; [rewrite bandwidth_breathy by lra; lra | reflexivity].
  - exists (1 + 0.3 * q). split; [rewrite bandwidth_tense by lra; lra | reflexivity].
Qed.

(** For a positive centre frequency the bandwidth grows strictly with the
    quality factor, across the change of slope at 0 as well. *)
Theorem calculateBandwidth_increasing (centerFreq q1 q2 : R) :
  0 < centerFreq -> q1 < q2 ->
  calculateBandwidth centerFreq q1 < calculateBandwidth centerFreq q2.
Proof.
  intros Hf Hq.
  destruct (bandwidth_multiplier centerFreq q1) as (m1 & -> & Hm1).
  destruct (bandwidth_multiplier centerFreq q2) as (m2 & -> & Hm2).
  assert (Hm : m1 < m2).
  { subst m1 m2. destruct (Rle_dec 0 q1), (Rle_dec 0 q2); lra. }
  apply Rmult_lt_compat_l; [lra | exact Hm].
Qed.

Lemma calculateBandwidth_increasing_witness :
  calculateBandwidth 270 (-1) < calculateBandwidth 270 1.
Proof.
  assert (Hf : 0 < 270) by lra.
  assert (Hq : -1 < 1) by lra.
  exact (calculateBandwidth_increasing Hf Hq).
Defined.

Lemma closed_form_Q_range (q : R) : -1 <= q <= 1 -> 25 / 3 <= closed_form_Q q <= 125 / 7.
Proof.
  intros Hq. unfold closed_form_Q, Rdiv. rewrite !Rmult_1_l.
  replace (25 * / 3) with (/ (0.08 * 1.5)) by (decimals; field).
  replace (125 * / 7) with (/ (0.08 * 0.7)) by (decimals; field).
  destruct (Rle_dec 0 q); split; apply Rinv_le_contravar; lra.
Qed.

(** For a centre frequency of the audible range and quality factors in
    [[-1,1]], the quotient [Q = freq / bandwidth] is defined and stays
    between 8.33 and 17.86 (25/3 at q = 1 and 125/7 at q = -1, over the
    reals), and it falls strictly from one quality factor to another at
    least 0.01 above it, as from any position of the slider to the next. *)
Theorem Q_decreasing_and_bounded (freq q1 q2 : R) :
  20 <= freq <= 20000 -> -1 <= q1 -> q1 + 0.01 <= q2 -> q2 <= 1 ->
  exists Q1 Q2,
    num_div freq (calculateBandwidth freq q1) = Ok Q1 /\
    num_div freq (calculateBandwidth freq q2) = Ok Q2 /\
    8.33 <= Q2 /\ Q2 < Q1 /\ Q1 <= 17.86.
Proof.
  intros Hf Hlo Hq Hhi.
  exists (closed_form_Q q1), (closed_form_Q q2).
  split; [apply Q_closed_form; lra |].
  split; [apply Q_closed_form; lra |].
  pose proof (@closed_form_Q_range q1) as Hr1.
  pose proof (@closed_form_Q_range q2) as Hr2.
  split; [lra |]. split; [| lra].
  assert (Hform : forall q, -1 <= q <= 1 ->
            exists m, 0.7 <= m <= 1.5 /\ closed_form_Q q = / (0.08 * m) /\
                      m = (if Rle_dec 0 q then 1 + 0.5 * q else 1 + 0.3 * q)).
  { intros q Hqr. unfold closed_form_Q. destruct (Rle_dec 0 q).
    - exists (1 + 0.5 * q). split; [lra |]. split; [| reflexivity].
      unfold Rdiv. rewrite Rmult_1_l. reflexivity.
    - exists (1 + 0.3 * q). split; [lra |]. split; [| reflexivity].
      unfold Rdiv. rewrite Rmult_1_l. reflexivity. }
  destruct (Hform q1) as (m1 & Hm1 & -> & E1); [lra |].
  destruct (Hform q2) as (m2 & Hm2 & -> & E2); [lra |].
  assert (Hm : m1 < m2).
  { subst m1 m2. destruct (Rle_dec 0 q1), (Rle_dec 0 q2); lra. }
  apply Rinv_lt_contravar; [| lra].
  apply Rmult_lt_0_compat; lra.
Qed.

Lemma Q_decreasing_and_bounded_witness :
  exists Q1 Q2,
    num_div (num := R) 270 (calculateBandwidth 270 (-1)) = Ok Q1 /\
    num_div (num := R) 270 (calculateBandwidth 270 1) = Ok Q2 /\
    8.33 <= Q2 /\ Q2 < Q1 /\ Q1 <= 17.86.
Proof.
  assert (Hf : 20 <= 270 <= 20000) by lra.
  assert (H1 : -1 <= -1) by lra.
  assert (H2 : -1 + 0.01 <= 1) by lra.
  assert (H3 : 1 <= 1) by lra.
  exact (Q_decreasing_and_bounded Hf H1 H2 H3).
Defined.

(** ** What the recompute pass hands over, in closed form *)

(** On a started synthesizer with a positive gender scale and a quality
    factor other than -10/3, the pass hands each filter its interpolated
    formant times the gender scale, and the closed form of Q. *)
Lemma updateVowel_explicit (this : VowelSynthesizerCore R) (f1 f2 f3 : R) :
  started this ->
  interpolateFormants (vowelX this) (vowelY this) = Ok [f1; f2; f3] ->
  0 < f1 -> 0 < f2 -> 0 < f3 ->
  0 < gender_scale (genderFactor this) ->
  qualityFactor this <> - 10 / 3 ->
  exists calls,
    updateVowel this = Ok (this, calls) /\
    formantOutput calls =
      [(f1 * gender_scale (genderFactor this), closed_form_Q (qualityFactor this));
       (f2 * gender_scale (genderFactor this), closed_form_Q (qualityFactor this));
       (f3 * gender_scale (genderFactor this), closed_form_Q (qualityFactor this))].
Proof.
  intros Hst Hi Hf1 Hf2 Hf3 Hs Hq.
  destruct (started_inv Hst) as (ctx & osc & n0 & n1 & n2 & gain & Hrun & Hctx & _ & Hfil & _).
  assert (HQ : forall f, 0 < f ->
             num_div (f * gender_scale (genderFactor this))
               (calculateBandwidth (f * gender_scale (genderFactor this)) (qualityFactor this)) =
             Ok (closed_form_Q (qualityFactor this))).
  { intros f Hf. apply Q_closed_form; [| exact Hq].
    apply Rgt_not_eq. apply Rmult_lt_0_compat; assumption. }
  eexists. split.
  - apply (updateVowel_run this Hrun Hctx Hfil Hi (HQ _ Hf1) (HQ _ Hf2) (HQ _ Hf3)).
  - reflexivity.
Qed.

Lemma gender_scale_range (g : R) : 0 <= g <= 2 -> 1 <= gender_scale g <= 1.43.
Proof. intros Hg. unfold gender_scale. destruct (Rle_dec g 1); lra. Qed.

(** On a started synthesizer whose control values lie in their domain the
    filters receive centre frequencies in increasing order between 270 Hz
    and 4304.3 Hz, and each a Q between 8.33 and 17.86. *)
Theorem updateVowel_output_range (this : VowelSynthesizerCore R) :
  started this -> in_domain this ->
  exists calls F1 Q1 F2 Q2 F3 Q3,
    updateVowel this = Ok (this, calls) /\
    formantOutput calls = [(F1, Q1); (F2, Q2); (F3, Q3)] /\
    270 <= F1 /\ F1 < F2 /\ F2 < F3 /\ F3 <= 4304.3 /\
    8.33 <= Q1 <= 17.86 /\ 8.33 <= Q2 <= 17.86 /\ 8.33 <= Q3 <= 17.86.
Proof.
  intros Hst (_ & _ & Hg & Hq).
  destruct (interpolate_blend (vowelX this) (vowelY this))
    as (a0 & b0 & c0 & a1 & b1 & c1 & a2 & b2 & c2 & n0 & n1 & n2 &
        Hi & Hsum & Hn0 & Hn1 & Hn2 & Hr0 & Hr1 & Hr2).
  apply in_catalog_range_inv in Hr0 as (Ha0 & Hb0 & Hc0 & Hab0 & Hbc0).
  apply in_catalog_range_inv in Hr1 as (Ha1 & Hb1 & Hc1 & Hab1 & Hbc1).
  apply in_catalog_range_inv in Hr2 as (Ha2 & Hb2 & Hc2 & Hab2 & Hbc2).
  set (f1 := a0 * n0 + a1 * n1 + a2 * n2) in *.
  set (f2 := b0 * n0 + b1 * n1 + b2 * n2) in *.
  set (f3 := c0 * n0 + c1 * n1 + c2 * n2) in *.
  assert (H1 : 270 <= f1 <= 860) by (apply convex_between; lra).
  assert (H3 : 1690 <= f3 <= 3010) by (apply convex_between; lra).
  assert (H12 : f1 < f2) by (apply convex_lt; lra).
  assert (H23 : f2 < f3) by (apply convex_lt; lra).
  pose proof (gender_scale_range Hg) as Hs.
  pose proof (closed_form_Q_range Hq) as HQ.
  destruct (@updateVowel_explicit this f1 f2 f3 Hst Hi) as (calls & Hrun & Hout); try lra.
  exists calls. eexists _, _, _, _, _, _. split; [exact Hrun |]. split; [exact Hout |].
  set (sc := gender_scale (genderFactor this)) in *.
  split.
  { apply Rle_trans with (f1 * 1); [lra | apply Rmult_le_compat_l; lra]. }
  split; [apply Rmult_lt_compat_r; lra |].
  split; [apply Rmult_lt_compat_r; lra |].
  split; [| repeat split; lra].
  apply Rle_trans with (3010 * 1.43); [| lra].
  apply Rmult_le_compat; lra.
Qed.

Lemma updateVowel_output_range_witness :
  exists calls F1 Q1 F2 Q2 F3 Q3,
    updateVowel (running (num := R) 0 0.5 0.95 2 (-1) 25) =
      Ok (running 0 0.5 0.95 2 (-1) 25, calls) /\
    formantOutput calls = [(F1, Q1); (F2, Q2); (F3, Q3)] /\
    270 <= F1 /\ F1 < F2 /\ F2 < F3 /\ F3 <= 4304.3 /\
    8.33 <= Q1 <= 17.86 /\ 8.33 <= Q2 <= 17.86 /\ 8.33 <= Q3 <= 17.86.
Proof.
  assert (Hdom : in_domain (running (num := R) 0 0.5 0.95 2 (-1) 25)).
  { unfold in_domain. cbn [vowelX vowelY genderFactor qualityFactor running]. lra. }
  exact (updateVowel_output_range (running_started 0 0.5 0.95 2 (-1) 25) Hdom).
Defined.

(** ** Quality changes Q only, gender changes the frequencies only *)

(** On a started synthesizer in its domain, [setQuality] with a factor in
    [[-1,1]] stores the factor and sends the three filters the very centre
    frequencies they had, each with the Q of the new factor (up to
    rounding). *)
Theorem setQuality_keeps_frequencies (this : VowelSynthesizerCore R) (q : R) :
  started this -> in_domain this ->
  -1 <= q <= 1 ->
  exists before after,
    updateVowel this = Ok (this, before) /\
    setQuality this q = Ok (set_qualityFactor this q, after) /\
    List.length (formantOutput after) = 3%nat /\
    map fst (formantOutput after) = map fst (formantOutput before) /\
    Forall (fun Q => close 1e-12 Q (closed_form_Q q)) (map snd (formantOutput after)).
Proof.
  intros Hst (_ & _ & Hg & Hq0) Hq.
  destruct (interpolateFormants_total (vowelX this) (vowelY this))
    as (f1 & f2 & f3 & Hi & Hf1 & Hf2 & Hf3).
  pose proof (gender_scale_range Hg) as Hs.
  destruct (@updateVowel_explicit this f1 f2 f3 Hst Hi) as (before & Hrun & Hout); try lra.
  assert (Hst' : started (set_qualityFactor this q)).
  { destruct Hst as (H1 & H2 & H3 & H4 & H5). repeat split; assumption. }
  destruct (@updateVowel_explicit (set_qualityFactor this q) f1 f2 f3 Hst' Hi)
    as (after & Hrun' & Hout'); try (cbn [genderFactor qualityFactor set_qualityFactor]; lra).
  cbn [genderFactor qualityFactor set_qualityFactor] in Hout'.
  exists before, after. split; [exact Hrun |]. split; [exact Hrun' |].
  rewrite Hout, Hout'. cbn [map fst snd List.length].
  split; [reflexivity |]. split; [reflexivity |].
  assert (Hsame : close 1e-12 (closed_form_Q q) (closed_form_Q q)).
  { unfold close. rewrite Rminus_diag, Rabs_R0. lra. }
  repeat (apply Forall_cons; [exact Hsame |]). apply Forall_nil.
Qed.

Lemma setQuality_keeps_frequencies_witness :
  exists before after,
    updateVowel (running (num := R) 0 0.5 0.5 0 0 25) = Ok (running 0 0.5 0.5 0 0 25, before) /\
    setQuality (running (num := R) 0 0.5 0.5 0 0 25) 1 = Ok (running 0 0.5 0.5 0 1 25, after) /\
    List.length (formantOutput after) = 3%nat /\
    map fst (formantOutput after) = map fst (formantOutput before) /\
    Forall (fun Q => close 1e-12 Q (closed_form_Q 1)) (map snd (formantOutput after)).
Proof.
  assert (Hdom : in_domain (running (num := R) 0 0.5 0.5 0 0 25)).
  { unfold in_domain. cbn [vowelX vowelY genderFactor qualityFactor running]. lra. }
  assert (Hq : -1 <= 1 <= 1) by lra.
  exact (setQuality_keeps_frequencies (running_started 0 0.5 0.5 0 0 25) Hdom Hq).
Defined.

(** On a started synthesizer in its domain, [setGender] with a factor in
    [[0,2]] stores the factor and sends the filters the same interpolated
    formants as before, now times the scale of the new factor: up to
    rounding, each centre frequency is multiplied by the ratio of the new
    gender scale to the old one, and every Q stays as it was. *)
Theorem setGender_rescales_frequencies (this : VowelSynthesizerCore R) (g : R) :
  started this -> in_domain this ->
  0 <= g <= 2 ->
  exists f1 f2 f3 before after,
    interpolateFormants (vowelX this) (vowelY this) = Ok [f1; f2; f3] /\
    updateVowel this = Ok (this, before) /\
    setGender this g = Ok (set_genderFactor this g, after) /\
    map fst (formantOutput before) =
      map (fun f => f * gender_scale (genderFactor this)) [f1; f2; f3] /\
    map fst (formantOutput after) = map (fun f => f * gender_scale g) [f1; f2; f3] /\
    Forall2 (fun Fa Fb =>
               close 1e-9 Fa (Fb * (gender_scale g / gender_scale (genderFactor this))))
            (map fst (formantOutput after)) (map fst (formantOutput before)) /\
    Forall2 (close 1e-12) (map snd (formantOutput after)) (map snd (formantOutput before)).
Proof.
  intros Hst (_ & _ & Hg0 & Hq) Hg.
  destruct (interpolateFormants_total (vowelX this) (vowelY this))
    as (f1 & f2 & f3 & Hi & Hf1 & Hf2 & Hf3).
  pose proof (gender_scale_range Hg0) as Hs0. pose proof (gender_scale_range Hg) as Hs.
  destruct (@updateVowel_explicit this f1 f2 f3 Hst Hi) as (before & Hrun & Hout); try lra.
  assert (Hst' : started (set_genderFactor this g)).
  { destruct Hst as (H1 & H2 & H3 & H4 & H5). repeat split; assumption. }
  destruct (@updateVowel_explicit (set_genderFactor this g) f1 f2 f3 Hst' Hi)
    as (after & Hrun' & Hout'); try (cbn [genderFactor qualityFactor set_genderFactor]; lra).
  cbn [genderFactor qualityFactor set_genderFactor] in Hout'.
  exists f1, f2, f3, before, after.
  split; [exact Hi |]. split; [exact Hrun |]. split; [exact Hrun' |].
  rewrite Hout, Hout'. cbn [map fst snd].
  split; [reflexivity |]. split; [reflexivity |].
  set (s0 := gender_scale (genderFactor this)) in *. set (s1 := gender_scale g) in *.
  assert (Hratio : forall f, close 1e-9 (f * s1) (f * s0 * (s1 / s0))).
  { intros f. unfold close. replace (f * s1 - f * s0 * (s1 / s0)) with 0 by (field; lra).
    rewrite Rabs_R0. lra. }
  assert (Hsame : forall Q, close 1e-12 Q Q).
  { intros Q. unfold close. rewrite Rminus_diag, Rabs_R0. lra. }
  split.
  - repeat (apply Forall2_cons; [apply Hratio |]). apply Forall2_nil.
  - repeat (apply Forall2_cons; [apply Hsame |]). apply Forall2_nil.
Qed.

Lemma setGender_rescales_frequencies_witness :
  exists f1 f2 f3 before after,
    interpolateFormants (num := R) 0.5 0.5 = Ok [f1; f2; f3] /\
    updateVowel (running (num := R) 0 0.5 0.5 0 0 25) = Ok (running 0 0.5 0.5 0 0 25, before) /\
    setGender (running (num := R) 0 0.5 0.5 0 0 25) 2 = Ok (running 0 0.5 0.5 2 0 25, after) /\
    map fst (formantOutput before) = map (fun f => f * gender_scale 0) [f1; f2; f3] /\
    map fst (formantOutput after) = map (fun f => f * gender_scale 2) [f1; f2; f3].
Proof.
  assert (Hdom : in_domain (running (num := R) 0 0.5 0.5 0 0 25)).
  { unfold in_domain. cbn [vowelX vowelY genderFactor qualityFactor running]. lra. }
  assert (Hg : 0 <= 2 <= 2) by lra.
  destruct (setGender_rescales_frequencies (running_started 0 0.5 0.5 0 0 25) Hdom Hg)
    as (f1 & f2 & f3 & before & after & Hi & Hrun & Hrun' & Hb & Ha & _).
  exists f1, f2, f3, before, after.
  split; [exact Hi |]. split; [exact Hrun |]. split; [exact Hrun' |].
  split; [exact Hb | exact Ha].
Defined.

(** ** How much the exact-match anchor weighs *)

(** Two different anchors of the catalog are at least [sqrt 0.025] apart. *)
Lemma positions_separated (a b : string * VowelData R) :
  In a VOWELS -> In b VOWELS -> a <> b ->
  0.025 <= sqdist (pos (snd b)) (pos (snd a)).
Proof.
  unfold VOWELS. cbn [In]. intros Ha Hb.
  repeat (destruct Ha as [<- | Ha]; [| try contradiction]);
    repeat (destruct Hb as [<- | Hb]; [| try contradiction]);
    intros Hne; try (exfalso; apply Hne; reflexivity);
    unfold sqdist; cbn [pos snd fst]; reals; lra.
Qed.

(** Queried at an anchor's position, the nearest entries are that anchor's
    entry followed by the entries of two other anchors. *)
Lemma anchor_query (a : string * VowelData R) :
  In a VOWELS ->
  let x := fst (pos (snd a)) in
  let y := snd (pos (snd a)) in
  exists b1 b2,
    nearest x y = [entry_of x y a; entry_of x y b1; entry_of x y b2] /\
    In b1 VOWELS /\ In b2 VOWELS /\ b1 <> a /\ b2 <> a.
Proof.
  intros Ha x y.
  destruct (nearest_structure x y)
    as (e0 & e1 & e2 & s & Hn & Hperm & Hnd & H01 & H12 & Hrest).
  assert (Hanchor : forall e, In e (e0 :: e1 :: e2 :: s) ->
                    0 <= dist e /\ exists b, In b VOWELS /\ e = entry_of x y b).
  { intros e He. apply (Permutation_in _ Hperm) in He.
    pose proof (distances_ok x y) as Hok. rewrite Forall_forall in Hok.
    split; [apply Hok, He |].
    rewrite distances_entry_of in He. apply in_map_iff in He as (b & <- & Hb).
    exists b. split; [exact Hb | reflexivity]. }
  assert (Hzero : dist (entry_of x y a) = 0).
  { cbn [entry_of dist]. unfold x, y. rewrite <- surjective_pairing. apply euclidean_same. }
  assert (HE : In (entry_of x y a) (e0 :: e1 :: e2 :: s)).
  { apply Permutation_in with (distances x y); [apply Permutation_sym, Hperm |].
    rewrite distances_entry_of. apply in_map, Ha. }
  assert (Hz0 : dist e0 = 0).
  { destruct (Hanchor e0) as [Hge _]; [left; reflexivity |].
    rewrite Forall_forall in Hrest.
    destruct HE as [E | [E | [E | HEs]]].
    - rewrite E. exact Hzero.
    - rewrite <- E in Hzero. lra.
    - rewrite <- E in Hzero. lra.
    - pose proof (Hrest _ HEs) as Hle. lra. }
  assert (He0 : e0 = entry_of x y a).
  { apply entry_at_distance_zero; [exact Ha | | exact Hz0].
    apply (Permutation_in _ Hperm). left. reflexivity. }
  inversion Hnd as [| ? ? Hn0 _]; subst e0.
  destruct (Hanchor e1) as [_ (b1 & Hb1 & ->)]; [cbn [In]; auto |].
  destruct (Hanchor e2) as [_ (b2 & Hb2 & ->)]; [cbn [In]; auto |].
  exists b1, b2. split; [exact Hn |]. split; [exact Hb1 |]. split; [exact Hb2 |].
  split; intros ->; apply Hn0; cbn [In]; auto.
Qed.

Lemma weight_of_other_anchor (a b : string * VowelData R) :
  In a VOWELS -> In b VOWELS -> b <> a ->
  let d := Reference.euclidean (pos (snd b)) (fst (pos (snd a)), snd (pos (snd a))) in
  0 <= d /\ 0 < weight d <= 1 / 0.168.
Proof.
  intros Ha Hb Hne d.
  assert (Hd : 0.158 <= d).
  { unfold d. rewrite <- surjective_pairing.
    rewrite <- (sqrt_square 0.158) by lra.
    apply sqrt_le_1_alt.
    apply Rle_trans with 0.025; [lra |].
    apply positions_separated; auto. }
  split; [lra |]. split; [apply weight_pos; lra |].
  unfold weight, Rdiv. rewrite !Rmult_1_l. apply Rinv_le_contravar; lra.
Qed.

Lemma blend_deviation (a p q n1 n2 c lo hi : R) :
  0 <= n1 -> 0 <= n2 -> n1 + n2 <= c ->
  lo <= a <= hi -> lo <= p <= hi -> lo <= q <= hi ->
  Rabs (a * (1 - n1 - n2) + p * n1 + q * n2 - a) <= c * (hi - lo).
Proof.
  intros H1 H2 Hc Ha Hp Hq.
  replace (a * (1 - n1 - n2) + p * n1 + q * n2 - a)
    with (n1 * (p - a) + n2 * (q - a)) by ring.
  assert (Hp1 : - (n1 * (hi - lo)) <= n1 * (p - a) <= n1 * (hi - lo)) by nra.
  assert (Hq1 : - (n2 * (hi - lo)) <= n2 * (q - a) <= n2 * (hi - lo)) by nra.
  assert (Hsum : (n1 + n2) * (hi - lo) <= c * (hi - lo)).
  { apply Rmult_le_compat_r; lra. }
  apply Rabs_le. lra.
Qed.

(** Queried at the catalog position of any anchor, that anchor's normalised
    weight exceeds 0.89, and the interpolated bands lie within 65 Hz, 160 Hz
    and 146 Hz of the anchor's own three formants. *)
Theorem exact_anchor_weight (a : string * VowelData R) :
  In a VOWELS ->
  let x := fst (pos (snd a)) in
  let y := snd (pos (snd a)) in
  exists n0 n1 n2 a1 a2 a3 f1 f2 f3,
    normalizedWeights x y = Ok [n0; n1; n2] /\ 0.89 < n0 /\
    formants (snd a) = [a1; a2; a3] /\
    interpolateFormants x y = Ok [f1; f2; f3] /\
    Rabs (f1 - a1) <= 65 /\ Rabs (f2 - a2) <= 160 /\ Rabs (f3 - a3) <= 146.
Proof.
  intros Ha x y.
  destruct (anchor_query Ha) as (b1 & b2 & Hn & Hb1 & Hb2 & Hne1 & Hne2).
  fold x y in Hn.
  assert (Hrange : forall b, In b VOWELS -> in_catalog_range (formants (snd b))).
  { intros b Hb. pose proof (distances_in_range x y) as Hr. rewrite Forall_forall in Hr.
    apply (Hr (entry_of x y b)). rewrite distances_entry_of. apply in_map, Hb. }
  destruct (Hrange a Ha) as (a1 & a2 & a3 & Hfa & Ra1 & Ra2 & Ra3 & _).
  destruct (Hrange b1 Hb1) as (p1 & p2 & p3 & Hfp & Rp1 & Rp2 & Rp3 & _).
  destruct (Hrange b2 Hb2) as (q1 & q2 & q3 & Hfq & Rq1 & Rq2 & Rq3 & _).
  destruct (weight_of_other_anchor Ha Hb1 Hne1) as (Hd1 & Hw1p & Hw1).
  destruct (weight_of_other_anchor Ha Hb2 Hne2) as (Hd2 & Hw2p & Hw2).
  assert (Hd0 : 0 <= dist (entry_of x y a)) by (cbn [entry_of dist]; apply sqrt_pos).
  destruct (@interpolate_explicit x y _ _ _ a1 a2 a3 p1 p2 p3 q1 q2 q3 Hn Hfa Hfp Hfq Hd0 Hd1 Hd2)
    as (_ & Hnw & Hi).
  cbn [entry_of dist] in Hnw, Hi.
  replace (Reference.euclidean (pos (snd a)) (x, y)) with 0 in Hnw, Hi
    by (unfold x, y; rewrite <- surjective_pairing, euclidean_same; reflexivity).
  fold x y in Hw1, Hw2, Hw1p, Hw2p.
  set (w0 := weight 0) in *.
  set (w1 := weight (Reference.euclidean (pos (snd b1)) (x, y))) in *.
  set (w2 := weight (Reference.euclidean (pos (snd b2)) (x, y))) in *.
  assert (Hw0 : w0 = 100) by (unfold w0, weight; lra).
  set (t := w0 + w1 + w2) in *.
  assert (Ht : 0 < t) by (unfold t; lra).
  assert (Hsum : w0 / t + w1 / t + w2 / t = 1) by (unfold t; field; lra).
  assert (Hn1 : 0 <= w1 / t) by (apply Rlt_le, Rdiv_lt_0_compat; assumption).
  assert (Hn2 : 0 <= w2 / t) by (apply Rlt_le, Rdiv_lt_0_compat; assumption).
  assert (Hn12 : w1 / t + w2 / t <= 0.107).
  { replace (w1 / t + w2 / t) with ((w1 + w2) / t) by (field; lra).
    apply Rlt_le. apply (quotient_between (lo := -1) Ht). unfold t. lra. }
  exists (w0 / t), (w1 / t), (w2 / t), a1, a2, a3. eexists _, _, _.
  split; [exact Hnw |]. split; [lra |]. split; [exact Hfa |]. split; [exact Hi |].
  replace (w0 / t) with (1 - w1 / t - w2 / t) by lra.
  split; [| split].
  - apply Rle_trans with (0.107 * (860 - 270)); [| lra].
    apply blend_deviation; assumption.
  - apply Rle_trans with (0.107 * (2290 - 840)); [| lra].
    apply blend_deviation; assumption.
  - apply Rle_trans with (0.107 * (3010 - 1690)); [| lra].
    apply blend_deviation; assumption.
Qed.

Lemma exact_anchor_weight_witness :
  exists n0 n1 n2 a1 a2 a3 f1 f2 f3,
    normalizedWeights (num := R) 0.5 0.5 = Ok [n0; n1; n2] /\ 0.89 < n0 /\
    [lit 490; lit 1350; lit 1690] = [a1; a2; a3] /\
    interpolateFormants (num := R) 0.5 0.5 = Ok [f1; f2; f3] /\
    Rabs (f1 - a1) <= 65 /\ Rabs (f2 - a2) <= 160 /\ Rabs (f3 - a3) <= 146.
Proof.
  assert (Ha : In ("ə"%string,
                   {| formants := [lit 490; lit 1350; lit 1690]; pos := (0.5, 0.5) |})
                  (VOWELS (num := R))).
  { do 5 right. left. reflexivity. }
  exact (exact_anchor_weight Ha).
Defined.

(** * The life cycle *)

Lemma set_isRunning_same (c : VowelSynthesizerCore R) :
  set_isRunning c (isRunning c) = c.
Proof. destruct c. reflexivity. Qed.

Lemma built_started (this : VowelSynthesizerObject R) (ctx : AudioContext R) :
  started (core (built this ctx)) /\
  controlState (core (built this ctx)) = controlState (core this) /\
  volume (core (built this ctx)) = volume (core this).
Proof.
  split; [| split; reflexivity].
  unfold started, built. cbn. repeat split; try discriminate; reflexivity.
Qed.

Lemma start_ok (this : VowelSynthesizerObject R) (ctx : AudioContext R)
      (calls : list (call R)) :
  isRunning (core this) = false ->
  updateVowel (core (built this ctx)) = Ok (core (built this ctx), calls) ->
  start this (Some ctx) =
    (built this ctx, build_events this ++ map (@Automation R) calls, None).
Proof.
  intros Hrun Hup. unfold start. rewrite Hrun, Hup. reflexivity.
Qed.

(** ** Starting *)

(** [start] on an object that is not running, with a host that provides a
    context and control values in range: nothing is raised; the object is
    running on the new graph with its control values and volume as they
    were; the host has been sent the graph, an oscillator frequency of 120,
    the stored volume as master gain and then the calls of one recompute
    pass, three positive (frequency, Q) pairs. *)
Theorem start_builds_running_synthesizer (this : VowelSynthesizerObject R)
        (ctx : AudioContext R) :
  isRunning (core this) = false ->
  0 <= genderFactor (core this) <= 2 ->
  -1 <= qualityFactor (core this) <= 1 ->
  exists calls F1 Q1 F2 Q2 F3 Q3,
    start this (Some ctx) =
      (built this ctx, build_events this ++ map (@Automation R) calls, None) /\
    started (core (built this ctx)) /\
    controlState (core (built this ctx)) = controlState (core this) /\
    volume (core (built this ctx)) = volume (core this) /\
    In (SetValue (Frequency 0%nat) 120) (build_events this) /\
    In (SetValue (Gain 5%nat) (volume (core this))) (build_events this) /\
    formantOutput calls = [(F1, Q1); (F2, Q2); (F3, Q3)] /\
    0 < F1 /\ 0 < Q1 /\ 0 < F2 /\ 0 < Q2 /\ 0 < F3 /\ 0 < Q3.
Proof.
  intros Hrun Hg Hq.
  destruct (built_started this ctx) as (Hst & Hcs & Hvol).
  destruct (@updateVowel_total (core (built this ctx)) Hst Hg Hq)
    as (calls & F1 & Q1 & F2 & Q2 & F3 & Q3 & Hup & Hout & Hpos).
  exists calls, F1, Q1, F2, Q2, F3, Q3.
  split.
  { unfold start. rewrite Hrun, Hup. reflexivity. }
  split; [exact Hst |]. split; [exact Hcs |]. split; [exact Hvol |].
  split.
  { unfold build_events. cbn [app In]. right. right. right. left.
    apply f_equal. reals. lra. }
  split.
  { unfold build_events. cbn [app In flat_map]. do 16 right. left. reflexivity. }
  split; [exact Hout | exact Hpos].
Qed.

Lemma start_builds_running_synthesizer_witness :
  exists calls F1 Q1 F2 Q2 F3 Q3,
    start (constructed (num := R)) (Some {| currentTime := 0 |}) =
      (built constructed {| currentTime := 0 |},
       build_events constructed ++ map (@Automation R) calls, None) /\
    formantOutput calls = [(F1, Q1); (F2, Q2); (F3, Q3)] /\
    0 < F1 /\ 0 < Q1 /\ 0 < F2 /\ 0 < Q2 /\ 0 < F3 /\ 0 < Q3.
Proof.
  assert (Hg : 0 <= genderFactor (core (constructed (num := R))) <= 2)
    by (cbn [genderFactor core constructed initial]; reals; lra).
  assert (Hq : -1 <= qualityFactor (core (constructed (num := R))) <= 1)
    by (cbn [qualityFactor core constructed initial]; reals; lra).
  destruct (@start_builds_running_synthesizer constructed {| currentTime := 0 |} eq_refl Hg Hq)
    as (calls & F1 & Q1 & F2 & Q2 & F3 & Q3 & Hs & _ & _ & _ & _ & _ & Hout & Hpos).
  exists calls, F1, Q1, F2, Q2, F3, Q3. split; [exact Hs |]. split; [exact Hout | exact Hpos].
Defined.

(** A second [start] on the object a successful [start] leaves builds no
    second graph: no event, no exception, the object unchanged.  A [start]
    whose host constructor throws re-raises and leaves the object as it
    was, with no event. *)
Theorem start_twice_or_failing (this : VowelSynthesizerObject R)
        (ctx : AudioContext R) (host : option (AudioContext R)) :
  isRunning (core this) = false ->
  0 <= genderFactor (core this) <= 2 ->
  -1 <= qualityFactor (core this) <= 1 ->
  (let '(this1, _, _) := start this (Some ctx) in start this1 host = (this1, [], None)) /\
  start this None = (this, [], Some HostError).
Proof.
  intros Hrun Hg Hq. split.
  - destruct (built_started this ctx) as (Hst & _).
    destruct (@updateVowel_total (core (built this ctx)) Hst Hg Hq)
      as (calls & _ & _ & _ & _ & _ & _ & Hup & _).
    unfold start at 1. rewrite Hrun, Hup. reflexivity.
  - unfold start. rewrite Hrun. rewrite <- Hrun at 1. rewrite set_isRunning_same.
    destruct this. reflexivity.
Qed.

Lemma start_twice_or_failing_witness :
  (let '(this1, _, _) := start (constructed (num := R)) (Some {| currentTime := 0 |}) in
   start this1 (Some {| currentTime := 1 |}) = (this1, [], None)) /\
  start (constructed (num := R)) None = (constructed, [], Some HostError).
Proof.
  assert (Hg : 0 <= genderFactor (core (constructed (num := R))) <= 2)
    by (cbn [genderFactor core constructed initial]; reals; lra).
  assert (Hq : -1 <= qualityFactor (core (constructed (num := R))) <= 1)
    by (cbn [qualityFactor core constructed initial]; reals; lra).
  exact (@start_twice_or_failing constructed {| currentTime := 0 |}
           (Some {| currentTime := 1 |}) eq_refl Hg Hq).
Defined.

(** ** Stopping *)

Lemma stopped_is_silent (c : VowelSynthesizerCore R) (f0 vol : R) :
  isRunning c = false ->
  updateVowel c = Ok (c, []) /\
  setPitch c f0 = Ok (c, []) /\
  setVolume c vol = Ok (set_volume c vol, []).
Proof.
  intros Hrun. split; [| split].
  - unfold updateVowel. rewrite Hrun. reflexivity.
  - unfold setPitch. rewrite Hrun. reflexivity.
  - unfold setVolume. cbn [isRunning set_volume]. rewrite Hrun. reflexivity.
Qed.

(** [stop] on a started synthesizer stops the oscillator and closes the
    context, in that order, and keeps every control value and the volume.
    From then on a recompute pass and the setters make no call on the host,
    while they still store what they are given, and a further [stop] does
    nothing. *)
Theorem stop_silences_synthesizer (this : VowelSynthesizerObject R)
        (x y g q f0 vol : R) :
  started (core this) ->
  exists osc stopped,
    oscillator (core this) = Some osc /\
    stop this = (stopped, [Stop osc; Close]) /\
    isRunning (core stopped) = false /\
    controlState (core stopped) = controlState (core this) /\
    volume (core stopped) = volume (core this) /\
    stop stopped = (stopped, []) /\
    updateVowel (core stopped) = Ok (core stopped, []) /\
    setVowelPosition (core stopped) x y = Ok (set_vowelXY (core stopped) x y, []) /\
    setGender (core stopped) g = Ok (set_genderFactor (core stopped) g, []) /\
    setQuality (core stopped) q = Ok (set_qualityFactor (core stopped) q, []) /\
    setPitch (core stopped) f0 = Ok (core stopped, []) /\
    setVolume (core stopped) vol = Ok (set_volume (core stopped) vol, []).
Proof.
  intros Hst.
  destruct (started_inv Hst) as (ctx & osc & n0 & n1 & n2 & gain & Hrun & Hctx & Hosc & _ & _).
  exists osc. eexists. split; [exact Hosc |].
  split; [unfold stop; rewrite Hrun, Hosc, Hctx; reflexivity |].
  cbn [core set_isRunning isRunning].
  split; [reflexivity |]. split; [reflexivity |]. split; [reflexivity |].
  split; [reflexivity |].
  destruct (@stopped_is_silent (set_isRunning (core this) false) f0 vol eq_refl)
    as (Hup & Hp & Hv).
  split; [exact Hup |].
  split; [exact (proj1 (@stopped_is_silent (set_vowelXY (set_isRunning (core this) false) x y)
                          f0 vol eq_refl)) |].
  split; [exact (proj1 (@stopped_is_silent (set_genderFactor (set_isRunning (core this) false) g)
                          f0 vol eq_refl)) |].
  split; [exact (proj1 (@stopped_is_silent (set_qualityFactor (set_isRunning (core this) false) q)
                          f0 vol eq_refl)) |].
  split; [exact Hp | exact Hv].
Qed.

Lemma stop_silences_synthesizer_witness :
  exists osc stopped,
    oscillator (core (built (constructed (num := R)) {| currentTime := 0 |})) = Some osc /\
    stop (built (constructed (num := R)) {| currentTime := 0 |}) = (stopped, [Stop osc; Close]) /\
    isRunning (core stopped) = false /\
    setGender (core stopped) 1 = Ok (set_genderFactor (core stopped) 1, []).
Proof.
  destruct (built_started (constructed (num := R)) {| currentTime := 0 |}) as (Hst & _).
  destruct (@stop_silences_synthesizer _ 0 0 1 0 0 0 Hst)
    as (osc & stopped & H1 & H2 & H3 & _ & _ & _ & _ & _ & H4 & _).
  exists osc, stopped. repeat split; assumption.
Defined.

(** A synthesizer that was started, had its controls moved while stopped and
    is started again runs on a new graph with the control values and the
    volume set while it was stopped; the oscillator of the new graph is again
    given 120. *)
Theorem restart_keeps_controls (this : VowelSynthesizerObject R)
        (ctx' : AudioContext R) (x y g q vol : R) :
  started (core this) ->
  0 <= g <= 2 -> -1 <= q <= 1 ->
  let '(stopped, _) := stop this in
  exists c1 c2 c3 c4 calls,
    setVowelPosition (core stopped) x y = Ok (c1, []) /\
    setGender c1 g = Ok (c2, []) /\
    setQuality c2 q = Ok (c3, []) /\
    setVolume c3 vol = Ok (c4, []) /\
    let moved := {| core := c4; preGain := preGain stopped; analyser := analyser stopped |} in
    start moved (Some ctx') =
      (built moved ctx', build_events moved ++ map (@Automation R) calls, None) /\
    controlState (core (built moved ctx')) = (x, y, g, q) /\
    volume (core (built moved ctx')) = vol /\
    In (SetValue (Frequency 0%nat) 120) (build_events moved) /\
    In (SetValue (Gain 5%nat) vol) (build_events moved) /\
    List.length (formantOutput calls) = 3%nat.
Proof.
  intros Hst Hg Hq.
  destruct (started_inv Hst) as (ctx & osc & n0 & n1 & n2 & gain & Hrun & Hctx & Hosc & _ & _).
  unfold stop. rewrite Hrun. cbn [negb].
  set (c0 := set_isRunning (core this) false).
  set (c1 := set_vowelXY c0 x y). set (c2 := set_genderFactor c1 g).
  set (c3 := set_qualityFactor c2 q). set (c4 := set_volume c3 vol).
  set (moved := {| core := c4; preGain := preGain this; analyser := analyser this |}).
  destruct (built_started moved ctx') as (Hst' & _).
  assert (Hg' : 0 <= genderFactor (core (built moved ctx')) <= 2) by exact Hg.
  assert (Hq' : -1 <= qualityFactor (core (built moved ctx')) <= 1) by exact Hq.
  destruct (updateVowel_total Hst' Hg' Hq')
    as (calls & F1 & Q1 & F2 & Q2 & F3 & Q3 & Hup & Hout & _).
  exists c1, c2, c3, c4, calls.
  split; [exact (proj1 (@stopped_is_silent c1 0 0 eq_refl)) |].
  split; [exact (proj1 (@stopped_is_silent c2 0 0 eq_refl)) |].
  split; [exact (proj1 (@stopped_is_silent c3 0 0 eq_refl)) |].
  split; [exact (proj2 (proj2 (@stopped_is_silent c3 0 vol eq_refl))) |].
  cbn zeta. fold moved.
  split; [apply start_ok; [reflexivity | exact Hup] |].
  split; [reflexivity |]. split; [reflexivity |].
  split.
  { unfold build_events. cbn [app In]. right. right. right. left.
    apply f_equal. reals. lra. }
  split.
  { unfold build_events. cbn [app In flat_map]. do 16 right. left. reflexivity. }
  rewrite Hout. reflexivity.
Qed.

Lemma restart_keeps_controls_witness :
  let '(stopped, _) := stop (built (constructed (num := R)) {| currentTime := 0 |}) in
  exists c1 c2 c3 c4 calls,
    setVowelPosition (core stopped) 0.9 0.9 = Ok (c1, []) /\
    setGender c1 1 = Ok (c2, []) /\
    setQuality c2 0.5 = Ok (c3, []) /\
    setVolume c3 10 = Ok (c4, []) /\
    let moved := {| core := c4; preGain := preGain stopped; analyser := analyser stopped |} in
    start moved (Some {| currentTime := 7 |}) =
      (built moved {| currentTime := 7 |},
       build_events moved ++ map (@Automation R) calls, None) /\
    controlState (core (built moved {| currentTime := 7 |})) = (0.9, 0.9, 1, 0.5) /\
    volume (core (built moved {| currentTime := 7 |})) = 10 /\
    In (SetValue (Frequency 0%nat) 120) (build_events moved) /\
    In (SetValue (Gain 5%nat) 10) (build_events moved) /\
    List.length (formantOutput calls) = 3%nat.
Proof.
  destruct (built_started (constructed (num := R)) {| currentTime := 0 |}) as (Hst & _).
  assert (Hg : 0 <= 1 <= 2) by lra.
  assert (Hq : -1 <= 0.5 <= 1) by lra.
  exact (@restart_keeps_controls _ {| currentTime := 7 |} 0.9 0.9 1 0.5 10 Hst Hg Hq).
Defined.

(** ** A recompute pass that raises inside [start] *)

(** With a gender scale of zero every centre frequency is zero and the first
    quotient is not a number. *)
Lemma updateVowel_zero_scale (c : VowelSynthesizerCore R) :
  started c -> gender_scale (genderFactor c) = 0 ->
  updateVowel c = Err NotFinite.
Proof.
  intros Hst Hs.
  destruct (started_inv Hst) as (ctx & osc & n0 & n1 & n2 & gain & Hrun & Hctx & _ & Hfil & _).
  destruct (interpolateFormants_total (vowelX c) (vowelY c)) as (f1 & f2 & f3 & Hi & _).
  unfold updateVowel. rewrite Hrun, Hctx, Hi. cbn [bind].
  rewrite scale_by_gender_scale, Hs. cbn [map seq mapM elem nth_error bind].
  assert (Hbw : calculateBandwidth (f1 * 0) (qualityFactor c) = 0).
  { destruct (bandwidth_multiplier (f1 * 0) (qualityFactor c)) as (m & -> & _). ring. }
  rewrite Hbw. cbv [num_div R_Number]. rewrite R_div_zero. reflexivity.
Qed.

(** When the recompute pass raises inside [start], [start] re-raises and
    records the object as not running, although the graph is built and its
    oscillator started: nothing stops the oscillator or closes the context,
    and a later [stop] does nothing. *)
Theorem failed_start_leaves_oscillator_running (this : VowelSynthesizerObject R)
        (ctx : AudioContext R) (e : error) :
  isRunning (core this) = false ->
  updateVowel (core (built this ctx)) = Err e ->
  exists failed events,
    start this (Some ctx) = (failed, events, Some (Thrown e)) /\
    isRunning (core failed) = false /\
    oscillator (core failed) = Some 0%nat /\
    audioContext (core failed) = Some ctx /\
    In (Start 0%nat) events /\
    (forall n, ~ In (Stop n) events) /\
    ~ In (@Close R) events /\
    stop failed = (failed, []).
Proof.
  intros Hrun Hup. eexists. exists (build_events this). split.
  { unfold start. rewrite Hrun, Hup. reflexivity. }
  cbn [core set_isRunning isRunning oscillator audioContext built].
  split; [reflexivity |]. split; [reflexivity |]. split; [reflexivity |].
  split.
  { unfold build_events. cbn [app In flat_map connect_chain]. do 26 right. left. reflexivity. }
  split.
  { intros n Hin. unfold build_events in Hin. cbn [app In flat_map connect_chain] in Hin.
    repeat (destruct Hin as [E | Hin]; [discriminate E |]). exact Hin. }
  split.
  { intros Hin. unfold build_events in Hin. cbn [app In flat_map connect_chain] in Hin.
    repeat (destruct Hin as [E | Hin]; [discriminate E |]). exact Hin. }
  reflexivity.
Qed.

Lemma failed_start_leaves_oscillator_running_witness :
  exists failed events,
    start {| core := set_genderFactor initial (- 50 / 9); preGain := None; analyser := None |}
          (Some {| currentTime := 0 |}) =
      (failed, events, Some (Thrown NotFinite)) /\
    isRunning (core failed) = false /\
    In (Start 0%nat) events /\
    stop failed = (failed, []).
Proof.
  set (this := {| core := set_genderFactor (initial (num := R)) (- 50 / 9);
                  preGain := None; analyser := None |}).
  destruct (built_started this {| currentTime := 0 |}) as (Hst & _).
  assert (Hs : gender_scale (genderFactor (core (built this {| currentTime := 0 |}))) = 0).
  { cbn [genderFactor core built this set_genderFactor]. unfold gender_scale.
    destruct (Rle_dec (- 50 / 9) 1); lra. }
  pose proof (updateVowel_zero_scale Hst Hs) as Hup.
  destruct (@failed_start_leaves_oscillator_running this {| currentTime := 0 |} NotFinite
              eq_refl Hup) as (failed & events & H1 & H2 & _ & _ & H3 & _ & _ & H4).
  exists failed, events. repeat split; assumption.
Defined.

(** ** The start and stop button *)

(** The calls of the recompute pass on a freshly built graph. *)
Lemma updateVowel_built (this : VowelSynthesizerObject R) (ctx : AudioContext R) :
  0 <= genderFactor (core this) <= 2 ->
  -1 <= qualityFactor (core this) <= 1 ->
  exists F1 Q1 F2 Q2 F3 Q3,
    updateVowel (core (built this ctx)) =
      Ok (core (built this ctx),
          [setTargetAtTime (Frequency 2%nat) F1 (currentTime ctx) 0.02;
           setTargetAtTime (QParam 2%nat) Q1 (currentTime ctx) 0.02;
           setTargetAtTime (Frequency 3%nat) F2 (currentTime ctx) 0.02;
           setTargetAtTime (QParam 3%nat) Q2 (currentTime ctx) 0.02;
           setTargetAtTime (Frequency 4%nat) F3 (currentTime ctx) 0.02;
           setTargetAtTime (QParam 4%nat) Q3 (currentTime ctx) 0.02]).
Proof.
  intros Hg Hq.
  destruct (interpolateFormants_total (vowelX (core this)) (vowelY (core this)))
    as (f1 & f2 & f3 & Hi & Hf1 & Hf2 & Hf3).
  pose proof (gender_scale_range Hg) as Hs.
  assert (HQ : forall f, 0 < f ->
             num_div (f * gender_scale (genderFactor (core this)))
               (calculateBandwidth (f * gender_scale (genderFactor (core this)))
                  (qualityFactor (core this))) =
             Ok (closed_form_Q (qualityFactor (core this)))).
  { intros f Hf. apply Q_closed_form; [| lra].
    apply Rgt_not_eq. apply Rmult_lt_0_compat; lra. }
  eexists _, _, _, _, _, _.
  apply (@updateVowel_run (core (built this ctx)) ctx 2%nat 3%nat 4%nat f1 f2 f3
           _ _ _ eq_refl eq_refl eq_refl Hi (HQ _ Hf1) (HQ _ Hf2) (HQ _ Hf3)).
Qed.

(** Pressing the button on a synthesizer that is not running. *)
Lemma toggleAudio_on (ui : Controls R) (synth : VowelSynthesizerObject R)
      (ctx : AudioContext R) :
  isRunning (core synth) = false ->
  0 <= genderFactor (core synth) <= 2 ->
  -1 <= qualityFactor (core synth) <= 1 ->
  exists synth' events,
    toggleAudio ui synth (Some ctx) = (setIsRunning ui true, synth', events) /\
    started (core synth') /\
    controlState (core synth') = controlState (core synth) /\
    volume (core synth') = ui_volume ui / 2 /\
    In (SetValue (Gain 5%nat) (volume (core synth))) events /\
    In (Automation (setValueAtTime (Gain 5%nat) (ui_volume ui / 2) (currentTime ctx))) events /\
    (forall v, In (SetValue (Frequency 0%nat) v) events -> v = 120) /\
    (forall v t tc, ~ In (Automation (setTargetAtTime (Frequency 0%nat) v t tc)) events) /\
    (forall v t, ~ In (Automation (setValueAtTime (Frequency 0%nat) v t)) events).
Proof.
  intros Hrun Hg Hq.
  destruct (updateVowel_built synth ctx Hg Hq) as (F1 & Q1 & F2 & Q2 & F3 & Q3 & Hup).
  assert (Hdiv : num_div (ui_volume ui) (lit 2) = Ok (ui_volume ui / 2)).
  { rewrite num_div_ok by (reals; lra). apply f_equal. reals. apply f_equal. lra. }
  eexists. eexists. split.
  { unfold toggleAudio. rewrite Hrun. cbn [negb].
    rewrite (start_ok Hrun Hup). rewrite Hdiv. cbn [bind].
    unfold setVolume. cbn [isRunning masterGain audioContext set_volume core built].
    reflexivity. }
  cbn [core]. split.
  { unfold started. cbn. repeat split; try discriminate; reflexivity. }
  split; [reflexivity |]. split; [reflexivity |].
  unfold build_events. cbn [app In flat_map connect_chain map currentTime].
  split; [do 16 right; left; reflexivity |].
  split; [do 33 right; left; reflexivity |].
  split.
  { intros v Hin.
    repeat (destruct Hin as [E | Hin]; [try discriminate E |]); try contradiction.
    injection E as <-. reals. lra. }
  split.
  { intros v t tc Hin.
    repeat (destruct Hin as [E | Hin]; [discriminate E |]). exact Hin. }
  intros v t Hin.
  repeat (destruct Hin as [E | Hin]; [discriminate E |]). exact Hin.
Qed.

(** With the synthesizer not running, moving the pitch slider and the volume
    slider makes no call on the host; the synthesizer stores half the volume
    slider's value and nothing of the pitch.  Pressing the button then starts
    it: the master gain is given the stored volume, while the only value the
    oscillator frequency is given is 120, whatever the pitch slider shows. *)
Theorem pitch_slider_ignored_at_start (ui : Controls R) (synth : VowelSynthesizerObject R)
        (ctx : AudioContext R) (p v : R) :
  isRunning (core synth) = false ->
  0 <= genderFactor (core synth) <= 2 ->
  -1 <= qualityFactor (core synth) <= 1 ->
  let ui1 := setPitchValue ui p in
  let ui2 := setVolumeValue ui1 v in
  let synth2 := {| core := set_volume (core synth) (v / 2);
                   preGain := preGain synth; analyser := analyser synth |} in
  handlePitchChange ui (core synth) p = (ui1, Ok (core synth, [])) /\
  handleVolumeChange ui1 (core synth) v = (ui2, Ok (core synth2, [])) /\
  ui_pitch ui2 = p /\
  exists synth' events,
    toggleAudio ui2 synth2 (Some ctx) = (setIsRunning ui2 true, synth', events) /\
    started (core synth') /\
    volume (core synth') = v / 2 /\
    In (SetValue (Gain 5%nat) (v / 2)) events /\
    In (Automation (setValueAtTime (Gain 5%nat) (v / 2) (currentTime ctx))) events /\
    (forall w, In (SetValue (Frequency 0%nat) w) events -> w = 120) /\
    (forall w t tc, ~ In (Automation (setTargetAtTime (Frequency 0%nat) w t tc)) events) /\
    (forall w t, ~ In (Automation (setValueAtTime (Frequency 0%nat) w t)) events).
Proof.
  intros Hrun Hg Hq ui1 ui2 synth2.
  destruct (@stopped_is_silent (core synth) p (v / 2) Hrun) as (_ & Hp & Hv).
  split.
  { unfold handlePitchChange. fold ui1. rewrite Hp. reflexivity. }
  split.
  { unfold handleVolumeChange. fold ui2.
    rewrite num_div_ok by (reals; lra). cbn [bind].
    replace (v / lit 2) with (v / 2) by (reals; lra). rewrite Hv. reflexivity. }
  split; [reflexivity |].
  destruct (@toggleAudio_on ui2 synth2 ctx Hrun Hg Hq)
    as (synth' & events & Htog & Hst & _ & Hvol & Hgain & Hauto & H120 & Hno1 & Hno2).
  exists synth', events.
  split; [exact Htog |]. split; [exact Hst |]. split; [exact Hvol |].
  split; [exact Hgain |]. split; [exact Hauto |].
  split; [exact H120 |]. split; [exact Hno1 | exact Hno2].
Qed.

Lemma pitch_slider_ignored_at_start_witness :
  exists synth' events,
    toggleAudio (setVolumeValue (setPitchValue mounted 300) 80)
      {| core := set_volume (core (constructed (num := R))) (80 / 2);
         preGain := None; analyser := None |}
      (Some {| currentTime := 0 |}) =
      (setIsRunning (setVolumeValue (setPitchValue mounted 300) 80) true, synth', events) /\
    volume (core synth') = 80 / 2 /\
    (forall w, In (SetValue (Frequency 0%nat) w) events -> w = 120).
Proof.
  assert (Hg : 0 <= genderFactor (core (constructed (num := R))) <= 2)
    by (cbn [genderFactor core constructed initial]; reals; lra).
  assert (Hq : -1 <= qualityFactor (core (constructed (num := R))) <= 1)
    by (cbn [qualityFactor core constructed initial]; reals; lra).
  destruct (@pitch_slider_ignored_at_start mounted constructed {| currentTime := 0 |} 300 80
              eq_refl Hg Hq)
    as (_ & _ & _ & synth' & events & H1 & _ & H2 & _ & _ & H3 & _).
  exists synth', events. repeat split; assumption.
Defined.

(** Pressing the button on a started synthesizer stops it and clears the
    waveform; pressing it when the host cannot provide a context raises the
    alert and leaves the component and the object as they were. *)
Theorem toggleAudio_stops_or_alerts (ui : Controls R) (synth : VowelSynthesizerObject R)
        (host : option (AudioContext R)) :
  (started (core synth) ->
   exists osc stopped,
     stop synth = (stopped, [Stop osc; Close]) /\
     toggleAudio ui synth host =
       (setIsRunning ui false, stopped, [Stop osc; Close; StopWaveformAnimation]) /\
     isRunning (core stopped) = false) /\
  (isRunning (core synth) = false ->
   toggleAudio ui synth None = (ui, synth, [Alert])).
Proof.
  split.
  - intros Hst.
    destruct (started_inv Hst) as (ctx & osc & n0 & n1 & n2 & gain & Hrun & Hctx & Hosc & _ & _).
    exists osc. eexists.
    assert (Hstop : stop synth =
                    ({| core := set_isRunning (core synth) false;
                        preGain := preGain synth; analyser := analyser synth |},
                     [Stop osc; Close])).
    { unfold stop. rewrite Hrun, Hosc, Hctx. reflexivity. }
    split; [exact Hstop |]. split; [| reflexivity].
    unfold toggleAudio. rewrite Hrun. cbn [negb]. rewrite Hstop. reflexivity.
  - intros Hrun. unfold toggleAudio, start. rewrite Hrun. cbn [negb].
    rewrite <- Hrun at 1. rewrite set_isRunning_same. destruct synth. reflexivity.
Qed.

Lemma toggleAudio_stops_or_alerts_witness :
  (exists osc stopped,
     stop (built (constructed (num := R)) {| currentTime := 0 |}) = (stopped, [Stop osc; Close]) /\
     toggleAudio mounted (built (constructed (num := R)) {| currentTime := 0 |}) None =
       (setIsRunning mounted false, stopped, [Stop osc; Close; StopWaveformAnimation]) /\
     isRunning (core stopped) = false) /\
  toggleAudio mounted (constructed (num := R)) None = (mounted, constructed, [Alert]).
Proof.
  destruct (built_started (constructed (num := R)) {| currentTime := 0 |}) as (Hst & _).
  split.
  - exact (proj1 (toggleAudio_stops_or_alerts mounted
                    (built (constructed (num := R)) {| currentTime := 0 |}) None) Hst).
  - exact (proj2 (toggleAudio_stops_or_alerts mounted (constructed (num := R)) None) eq_refl).
Defined.

(** * The sliders and the chart *)

Lemma Math_max_Rmax (a b : R) : Math_max a b = Rmax a b.
Proof.
  unfold Math_max, isNaN. reals.
  rewrite !R_leb_true by lra. cbn [negb].
  unfold Rmax, R_ltb.
  destruct (Rlt_dec a b), (Rlt_dec b a), (Rle_dec a b); try lra; try reflexivity.
  assert (a = b) by lra. subst b.
  destruct (R_div (Q2R 1) a); [| reflexivity].
  destruct (Rlt_dec a0 a0); reflexivity.
Qed.

Lemma Math_min_Rmin (a b : R) : Math_min a b = Rmin a b.
Proof.
  unfold Math_min, isNaN. reals.
  rewrite !R_leb_true by lra. cbn [negb].
  unfold Rmin, R_ltb.
  destruct (Rlt_dec a b), (Rlt_dec b a), (Rle_dec a b); try lra; try reflexivity.
  assert (a = b) by lra. subst b.
  destruct (R_div (Q2R 1) a); [| reflexivity].
  destruct (Rlt_dec a0 a0); reflexivity.
Qed.

Lemma clamp_range (lo hi x : R) : lo <= hi -> lo <= clamp lo hi x <= hi.
Proof.
  intros Hlh. unfold clamp, Rmax, Rmin.
  destruct (Rle_dec hi x); destruct (Rle_dec lo _); lra.
Qed.

Lemma clamp_inside (lo hi x : R) : lo <= x <= hi -> clamp lo hi x = x.
Proof.
  intros Hx. unfold clamp, Rmax, Rmin.
  destruct (Rle_dec hi x); destruct (Rle_dec lo _); lra.
Qed.

Lemma started_set_genderFactor (c : VowelSynthesizerCore R) (g : R) :
  started c -> started (set_genderFactor c g).
Proof. intros (H1 & H2 & H3 & H4 & H5). repeat split; assumption. Qed.

Lemma started_set_qualityFactor (c : VowelSynthesizerCore R) (q : R) :
  started c -> started (set_qualityFactor c q).
Proof. intros (H1 & H2 & H3 & H4 & H5). repeat split; assumption. Qed.

Lemma started_set_vowelXY (c : VowelSynthesizerCore R) (x y : R) :
  started c -> started (set_vowelXY c x y).
Proof. intros (H1 & H2 & H3 & H4 & H5). repeat split; assumption. Qed.

(** A recompute pass on a started synthesizer in its domain succeeds with
    three pairs. *)
Lemma pass_of_domain (c : VowelSynthesizerCore R) :
  started c -> in_domain c ->
  exists calls, updateVowel c = Ok (c, calls) /\ List.length (formantOutput calls) = 3%nat.
Proof.
  intros Hst (_ & _ & Hg & Hq).
  destruct (updateVowel_total Hst Hg Hq) as (calls & F1 & Q1 & F2 & Q2 & F3 & Q3 & Hup & Hout & _).
  exists calls. split; [exact Hup | rewrite Hout; reflexivity].
Qed.

(** The gender slider runs over [[0,200]] and the quality slider over
    [[0,100]].  On a started synthesizer in its domain, their handlers store
    the slider value in the component, give the synthesizer the factor
    [value / 100], respectively [(value - 50) / 50], which keeps it in its
    domain, and the recompute pass they trigger succeeds. *)
Theorem sliders_keep_domain (ui : Controls R) (synth : VowelSynthesizerCore R) (value : R) :
  started synth -> in_domain synth ->
  (0 <= value <= 200 ->
   exists calls,
     handleGenderChange ui synth value =
       (setGenderValue ui value, Ok (set_genderFactor synth (value / 100), calls)) /\
     in_domain (set_genderFactor synth (value / 100)) /\
     List.length (formantOutput calls) = 3%nat) /\
  (0 <= value <= 100 ->
   exists calls,
     handleQualityChange ui synth value =
       (setQualityValue ui value, Ok (set_qualityFactor synth ((value - 50) / 50), calls)) /\
     in_domain (set_qualityFactor synth ((value - 50) / 50)) /\
     List.length (formantOutput calls) = 3%nat).
Proof.
  intros Hst Hdom. pose proof Hdom as (Hx & Hy & Hg & Hq). split; intros Hv.
  - assert (Hdom' : in_domain (set_genderFactor synth (value / 100))).
    { unfold in_domain. cbn [vowelX vowelY genderFactor qualityFactor set_genderFactor].
      repeat split; lra. }
    destruct (pass_of_domain (started_set_genderFactor (value / 100) Hst) Hdom')
      as (calls & Hup & Hlen).
    exists calls. split; [| split; assumption].
    unfold handleGenderChange. apply f_equal.
    rewrite num_div_ok by (reals; lra). cbn [bind]. unfold setGender.
    replace (value / lit 100) with (value / 100) by (reals; lra). exact Hup.
  - assert (Hdom' : in_domain (set_qualityFactor synth ((value - 50) / 50))).
    { unfold in_domain. cbn [vowelX vowelY genderFactor qualityFactor set_qualityFactor].
      repeat split; lra. }
    destruct (pass_of_domain (started_set_qualityFactor ((value - 50) / 50) Hst) Hdom')
      as (calls & Hup & Hlen).
    exists calls. split; [| split; assumption].
    unfold handleQualityChange. apply f_equal.
    rewrite num_div_ok by (reals; lra). cbn [bind]. unfold setQuality.
    replace (num_sub value (lit 50) / lit 50) with ((value - 50) / 50) by (reals; lra).
    exact Hup.
Qed.

Lemma sliders_keep_domain_witness :
  (exists calls,
     handleGenderChange mounted (running (num := R) 0 0.5 0.5 0 0 25) 200 =
       (setGenderValue mounted 200,
        Ok (set_genderFactor (running 0 0.5 0.5 0 0 25) (200 / 100), calls)) /\
     List.length (formantOutput calls) = 3%nat) /\
  (exists calls,
     handleQualityChange mounted (running (num := R) 0 0.5 0.5 0 0 25) 0 =
       (setQualityValue mounted 0,
        Ok (set_qualityFactor (running 0 0.5 0.5 0 0 25) ((0 - 50) / 50), calls)) /\
     List.length (formantOutput calls) = 3%nat).
Proof.
  assert (Hdom : in_domain (running (num := R) 0 0.5 0.5 0 0 25)).
  { unfold in_domain. cbn [vowelX vowelY genderFactor qualityFactor running]. lra. }
  assert (H200 : 0 <= 200 <= 200) by lra.
  assert (H0 : 0 <= 0 <= 100) by lra.
  split.
  - destruct (proj1 (sliders_keep_domain mounted 200 (running_started 0 0.5 0.5 0 0 25) Hdom) H200)
      as (calls & H1 & _ & H2).
    exists calls. split; assumption.
  - destruct (proj2 (sliders_keep_domain mounted 0 (running_started 0 0.5 0.5 0 0 25) Hdom) H0)
      as (calls & H1 & _ & H2).
    exists calls. split; assumption.
Defined.

(** A pointer event on the vowel chart, for a canvas and a bounding
    rectangle of positive size: the position given to the synthesizer lies
    in the unit square and is, up to rounding, the pointer's relative
    position in the rectangle, measured from the left edge and from the
    bottom edge and clamped to the rectangle, so that the resolution of the
    canvas plays no part.  The synthesizer stays in its domain and the
    recompute pass succeeds.  With no canvas the handler does nothing. *)
Theorem pointer_position_is_clamped (Math_round : R -> R) (ui : Controls R)
        (synth : VowelSynthesizerCore R) (canvas : Canvas R) (clientX clientY : R) :
  started synth -> in_domain synth ->
  0 < width canvas -> 0 < height canvas ->
  0 < rect_width canvas -> 0 < rect_height canvas ->
  let relX := (clientX - rect_left canvas) / rect_width canvas in
  let relY := 1 - (clientY - rect_top canvas) / rect_height canvas in
  (exists newX newY calls,
     updateVowelPosition Math_round ui synth (Some canvas) clientX clientY =
       (setVowelXY ui (Math_round newX) (Math_round newY),
        Ok (set_vowelXY synth (newX / 100) (newY / 100), calls)) /\
     0 <= newX <= 100 /\ 0 <= newY <= 100 /\
     close 1e-12 (newX / 100) (clamp 0 1 relX) /\
     close 1e-12 (newY / 100) (clamp 0 1 relY) /\
     in_domain (set_vowelXY synth (newX / 100) (newY / 100)) /\
     List.length (formantOutput calls) = 3%nat) /\
  updateVowelPosition Math_round ui synth None clientX clientY = (ui, Ok (synth, [])).
Proof.
  intros Hst Hdom HW HH Hrw Hrh relX relY.
  pose proof Hdom as (Hx & Hy & Hg & Hq).
  set (X := relX * 100). set (Y := relY * 100).
  pose proof (@clamp_range 0 100 X) as HcX. pose proof (@clamp_range 0 100 Y) as HcY.
  assert (Hdom' : in_domain (set_vowelXY synth (clamp 0 100 X / 100) (clamp 0 100 Y / 100))).
  { unfold in_domain. cbn [vowelX vowelY genderFactor qualityFactor set_vowelXY].
    repeat split; lra. }
  destruct (pass_of_domain
              (started_set_vowelXY (clamp 0 100 X / 100) (clamp 0 100 Y / 100) Hst) Hdom')
    as (calls & Hup & Hlen).
  assert (Hscale : forall r, clamp 0 100 (r * 100) / 100 = clamp 0 1 r).
  { intros r. unfold clamp, Rmax, Rmin.
    destruct (Rle_dec 100 (r * 100)), (Rle_dec 1 r); try lra;
      repeat match goal with |- context [Rle_dec ?a ?b] => destruct (Rle_dec a b) end; lra. }
  assert (Hsame : forall a b, a = b -> close 1e-12 a b).
  { intros a b ->. unfold close. rewrite Rminus_diag, Rabs_R0. lra. }
  split; [| reflexivity].
  exists (clamp 0 100 X), (clamp 0 100 Y), calls.
  split; [| split; [lra | split; [lra |]]].
  - unfold updateVowelPosition.
    rewrite (num_div_ok (width canvas) (Rgt_not_eq _ _ Hrw)). cbn [bind].
    rewrite (num_div_ok (height canvas) (Rgt_not_eq _ _ Hrh)). cbn [bind].
    rewrite (num_div_ok _ (Rgt_not_eq _ _ HW)). cbn [bind].
    rewrite (num_div_ok _ (Rgt_not_eq _ _ HH)). cbn [bind].
    rewrite !Math_max_Rmax, !Math_min_Rmin.
    assert (EX : Rmax (lit 0)
                   (Rmin (lit 100)
                      (num_mul
                         (num_mul (num_sub clientX (rect_left canvas))
                            (width canvas / rect_width canvas) / width canvas)
                         (lit 100))) = clamp 0 100 X).
    { unfold clamp, X, relX. reals.
      replace (Q2R 0) with 0 by lra. replace (Q2R 100) with 100 by lra.
      do 2 apply f_equal. field. split; lra. }
    assert (EY : Rmax (lit 0)
                   (Rmin (lit 100)
                      (num_mul
                         (num_sub (lit 1)
                            (num_mul (num_sub clientY (rect_top canvas))
                               (height canvas / rect_height canvas) / height canvas))
                         (lit 100))) = clamp 0 100 Y).
    { unfold clamp, Y, relY. reals.
      replace (Q2R 0) with 0 by lra. replace (Q2R 100) with 100 by lra.
      replace (Q2R 1) with 1 by lra.
      do 2 apply f_equal. field. split; lra. }
    rewrite EX, EY.
    rewrite !num_div_ok by (reals; lra). cbn [bind].
    replace (lit 100) with 100 by (reals; lra).
    unfold setVowelPosition. rewrite Hup. reflexivity.
  - split; [apply Hsame, Hscale |]. split; [apply Hsame, Hscale |].
    split; [exact Hdom' | exact Hlen].
Qed.

Lemma pointer_position_is_clamped_witness :
  exists newX newY calls,
    updateVowelPosition (fun v => v) mounted (running (num := R) 0 0.5 0.5 0 0 25)
                        (Some (chart 10 20 300 200)) 100 50 =
      (setVowelXY mounted newX newY,
       Ok (set_vowelXY (running 0 0.5 0.5 0 0 25) (newX / 100) (newY / 100), calls)) /\
    close 1e-12 (newX / 100) (clamp 0 1 ((100 - 10) / 300)) /\
    close 1e-12 (newY / 100) (clamp 0 1 (1 - (50 - 20) / 200)) /\
    List.length (formantOutput calls) = 3%nat.
Proof.
  assert (Hdom : in_domain (running (num := R) 0 0.5 0.5 0 0 25)).
  { unfold in_domain. cbn [vowelX vowelY genderFactor qualityFactor running]. lra. }
  assert (HW : 0 < width (chart (num := R) 10 20 300 200)) by (cbn [width chart]; reals; lra).
  assert (HH : 0 < height (chart (num := R) 10 20 300 200)) by (cbn [height chart]; reals; lra).
  assert (Hrw : 0 < rect_width (chart (num := R) 10 20 300 200)) by (cbn [rect_width chart]; lra).
  assert (Hrh : 0 < rect_height (chart (num := R) 10 20 300 200))
    by (cbn [rect_height chart]; lra).
  destruct (@pointer_position_is_clamped (fun v => v) mounted _ _ 100 50
              (running_started 0 0.5 0.5 0 0 25) Hdom HW HH Hrw Hrh)
    as ((newX & newY & calls & H1 & _ & _ & H2 & H3 & _ & H4) & _).
  cbn [rect_left rect_top rect_width rect_height chart] in H2, H3.
  exists newX, newY, calls.
  split; [exact H1 |]. split; [exact H2 |]. split; [exact H3 | exact H4].
Defined.

(** * The sawtooth generator *)

(** A pitch and a volume set while the generator is not live make no call
    on the host but are stored, and the next [start] gives them to the new
    oscillator and gain; once live, every further [setPitch] and
    [setVolume] is handed to the host with the value unchanged. *)
Theorem sawtooth_start_applies_stored_parameters
        (this : Sawtooth.SawtoothGeneratorCore R) (ctx : AudioContext R) (f0 vol f1 vol1 : R) :
  Sawtooth.isRunning this = false ->
  exists stored live events,
    Sawtooth.setPitch this f0 = (Sawtooth.set_pitch this f0, []) /\
    Sawtooth.setVolume (Sawtooth.set_pitch this f0) vol = (stored, []) /\
    Sawtooth.start stored (Some ctx) = (live, events, None) /\
    In (SetValue (Frequency 0%nat) f0) events /\
    In (SetValue (Gain 1%nat) vol) events /\
    (forall v, In (SetValue (Frequency 0%nat) v) events -> v = f0) /\
    Sawtooth.isRunning live = true /\
    Sawtooth.pitch live = f0 /\ Sawtooth.volume live = vol /\
    Sawtooth.setPitch live f1 =
      (Sawtooth.set_pitch live f1,
       [setTargetAtTime (Frequency 0%nat) f1 (currentTime ctx) 0.02]) /\
    Sawtooth.setVolume live vol1 =
      (Sawtooth.set_volume live vol1,
       [setValueAtTime (Gain 1%nat) vol1 (currentTime ctx)]).
Proof.
  intros Hrun.
  eexists _, _, _.
  split.
  { unfold Sawtooth.setPitch. cbn [Sawtooth.isRunning Sawtooth.set_pitch].
    rewrite Hrun. reflexivity. }
  split.
  { unfold Sawtooth.setVolume.
    cbn [Sawtooth.isRunning Sawtooth.set_pitch Sawtooth.set_volume].
    rewrite Hrun. reflexivity. }
  split.
  { unfold Sawtooth.start.
    cbn [Sawtooth.isRunning Sawtooth.set_pitch Sawtooth.set_volume].
    rewrite Hrun. reflexivity. }
  cbn [Sawtooth.pitch Sawtooth.volume Sawtooth.set_pitch Sawtooth.set_volume In].
  split; [do 3 right; left; reflexivity |].
  split; [do 5 right; left; reflexivity |].
  split.
  { intros v Hin.
    repeat (destruct Hin as [E | Hin]; [try discriminate E |]); try contradiction.
    injection E as <-. reflexivity. }
  split; [reflexivity |]. split; [reflexivity |]. split; [reflexivity |].
  split; reflexivity.
Qed.

Lemma sawtooth_start_applies_stored_parameters_witness :
  exists stored live events,
    Sawtooth.setPitch (Sawtooth.initial (num := R)) 220 =
      (Sawtooth.set_pitch Sawtooth.initial 220, []) /\
    Sawtooth.setVolume (Sawtooth.set_pitch (Sawtooth.initial (num := R)) 220) 0.8 = (stored, []) /\
    Sawtooth.start stored (Some {| currentTime := 0 |}) = (live, events, None) /\
    In (SetValue (Frequency 0%nat) 220) events /\
    In (SetValue (Gain 1%nat) 0.8) events.
Proof.
  destruct (@sawtooth_start_applies_stored_parameters Sawtooth.initial {| currentTime := 0 |}
              220 0.8 0 0 eq_refl)
    as (stored & live & events & H1 & H2 & H3 & H4 & H5 & _).
  exists stored, live, events. repeat split; assumption.
Defined.

(** Pressing the sawtooth generator's button when it is not live starts
    it and brings it in line with both sliders: the generator stores the
    pitch slider's value and a hundredth of the volume slider's, and hands
    both to the host.  Pressing the button again stops the oscillator,
    closes the context and keeps the stored values. *)
Theorem sawtooth_toggle_syncs_sliders (ui : Sawtooth.Controls R)
        (synth : Sawtooth.SawtoothGeneratorCore R) (ctx : AudioContext R)
        (host : option (AudioContext R)) :
  Sawtooth.isRunning synth = false ->
  exists live events stopped,
    Sawtooth.toggleAudio ui synth (Some ctx) =
      (Sawtooth.setIsRunning ui true, live, events) /\
    Sawtooth.isRunning live = true /\
    Sawtooth.pitch live = Sawtooth.ui_pitch ui /\
    Sawtooth.volume live = Sawtooth.ui_volume ui / 100 /\
    In (Automation (setTargetAtTime (Frequency 0%nat) (Sawtooth.ui_pitch ui)
                      (currentTime ctx) 0.02)) events /\
    In (Automation (setValueAtTime (Gain 1%nat) (Sawtooth.ui_volume ui / 100)
                      (currentTime ctx))) events /\
    Sawtooth.toggleAudio (Sawtooth.setIsRunning ui true) live host =
      (Sawtooth.setIsRunning ui false, stopped, [Stop 0%nat; Close; StopWaveformAnimation]) /\
    Sawtooth.isRunning stopped = false /\
    Sawtooth.pitch stopped = Sawtooth.ui_pitch ui /\
    Sawtooth.volume stopped = Sawtooth.ui_volume ui / 100.
Proof.
  intros Hrun.
  assert (Hdiv : num_div (Sawtooth.ui_volume ui) (lit 100) = Ok (Sawtooth.ui_volume ui / 100)).
  { rewrite num_div_ok by (reals; lra). apply f_equal. reals. apply f_equal. lra. }
  eexists _, _, _.
  split.
  { unfold Sawtooth.toggleAudio, Sawtooth.start. rewrite Hrun. cbn [negb].
    unfold Sawtooth.setPitch.
    cbn [Sawtooth.isRunning Sawtooth.oscillator Sawtooth.audioContext Sawtooth.set_pitch].
    rewrite Hdiv. unfold Sawtooth.setVolume.
    cbn [Sawtooth.isRunning Sawtooth.masterGain Sawtooth.audioContext Sawtooth.set_volume].
    reflexivity. }
  cbn [Sawtooth.isRunning Sawtooth.pitch Sawtooth.volume app map In].
  split; [reflexivity |]. split; [reflexivity |]. split; [reflexivity |].
  split; [do 12 right; left; reflexivity |].
  split; [do 13 right; left; reflexivity |].
  split; [reflexivity |].
  split; [reflexivity |]. split; reflexivity.
Qed.

Lemma sawtooth_toggle_syncs_sliders_witness :
  exists live events stopped,
    Sawtooth.toggleAudio Sawtooth.mounted (Sawtooth.initial (num := R))
                         (Some {| currentTime := 0 |}) =
      (Sawtooth.setIsRunning Sawtooth.mounted true, live, events) /\
    Sawtooth.pitch live = Sawtooth.ui_pitch Sawtooth.mounted /\
    Sawtooth.toggleAudio (Sawtooth.setIsRunning Sawtooth.mounted true) live None =
      (Sawtooth.setIsRunning Sawtooth.mounted false, stopped,
       [Stop 0%nat; Close; StopWaveformAnimation]).
Proof.
  destruct (@sawtooth_toggle_syncs_sliders Sawtooth.mounted Sawtooth.initial
              {| currentTime := 0 |} None eq_refl)
    as (live & events & stopped & H1 & _ & H2 & _ & _ & _ & H3 & _).
  exists live, events, stopped. repeat split; assumption.
Defined.

(** * The waveform *)

Lemma lit_Z (z : Z) : lit (num := R) (inject_Z z) = IZR z.
Proof. reals. unfold Q2R, inject_Z. cbn [Qnum Qden]. rewrite Rinv_1. ring. Qed.

Lemma abscissae_cons (x step : R) (n : nat) :
  abscissae x step (S n) = x :: abscissae (x + step) step n.
Proof.
  unfold abscissae. cbn [seq map]. f_equal; [cbn [INR]; ring |].
  rewrite <- seq_shift, map_map. apply map_ext. intros i.
  rewrite S_INR. ring.
Qed.

Lemma clamped_sample (h : R) (sample : Z) (y : R) :
  y = h / 2 + (IZR sample - 128) / 128 * h ->
  Math_max (lit 0) (Math_min h y) = sample_y h sample.
Proof.
  intros ->. rewrite Math_max_Rmax, Math_min_Rmin. unfold sample_y, clamp.
  replace (lit 0) with 0 by (reals; lra). reflexivity.
Qed.

Lemma plot_points (h step : R) (buffer : list Z) :
  forall (first : bool) (x : R),
  exists calls,
    plot h step first x buffer = Ok calls /\
    path_points calls =
      combine (abscissae x step (List.length buffer)) (map (sample_y h) buffer).
Proof.
  induction buffer as [| sample buffer IH]; intros first x.
  - exists []. split; reflexivity.
  - destruct (IH false (x + step)) as (rest & Hrest & Hpts).
    cbn [plot]. rewrite lit_Z.
    repeat (rewrite num_div_ok by (reals; lra); cbn [bind]).
    change (num_add x step) with (x + step). rewrite Hrest. cbn [bind].
    eexists. split; [reflexivity |].
    cbn [List.length map]. rewrite abscissae_cons. cbn [combine].
    destruct first; cbn [path_points];
      match goal with
      | |- context [Math_max (lit 0) (Math_min h ?y)] =>
          rewrite (@clamped_sample h sample y) by (reals; lra)
      end; rewrite Hpts; reflexivity.
Qed.

Lemma abscissae_bounds (step : R) (n m : nat) (x : R) :
  0 <= step -> In x (abscissae 0 step n) -> (n <= m)%nat -> 0 <= x <= INR m * step.
Proof.
  intros Hstep Hin Hnm. unfold abscissae in Hin.
  apply in_map_iff in Hin as (i & <- & Hi). apply in_seq in Hi.
  assert (Hi0 : 0 <= INR i) by apply pos_INR.
  assert (Him : INR i <= INR m) by (apply le_INR; lia).
  split; [nra |]. rewrite Rplus_0_l. apply Rmult_le_compat_r; assumption.
Qed.

(** On a running synthesizer with an analyser, a canvas of positive size
    and a non-empty buffer, [drawWaveform] draws one point per sample at
    evenly spaced abscissae from 0 and ends the path on the right edge at
    half height; every point of the path lies within the canvas.  A sample
    of 128 is drawn on the centre line; because of the twofold zoom, samples
    of 192 and more are drawn on the bottom edge and samples of 64 and less
    on the top edge.  Without a canvas, or when the synthesizer is not
    running, nothing is drawn and no frame is requested. *)
Theorem drawWaveform_stays_in_canvas (canvas : Canvas R) (analyser : node)
        (context2d : bool) (buffer : list Z) :
  0 < width canvas -> 0 < height canvas -> buffer <> [] ->
  let n := List.length buffer in
  let h := height canvas in
  (exists calls,
     drawWaveform (Some canvas) (Some analyser) true true buffer = Ok calls /\
     path_points calls =
       combine (abscissae 0 (width canvas / INR n) n) (map (sample_y h) buffer)
       ++ [(width canvas, h / 2)] /\
     Forall (fun p => 0 <= fst p <= width canvas /\ 0 <= snd p <= h) (path_points calls) /\
     In RequestAnimationFrame calls) /\
  sample_y h 128 = h / 2 /\
  (forall sample, (192 <= sample)%Z -> sample_y h sample = h) /\
  (forall sample, (sample <= 64)%Z -> sample_y h sample = 0) /\
  drawWaveform (Some canvas) (Some analyser) false context2d buffer = Ok [] /\
  drawWaveform None (Some analyser) true context2d buffer = Ok [].
Proof.
  intros Hw Hh Hne n h.
  assert (Hn : 0 < INR n).
  { apply lt_0_INR. unfold n. destruct buffer; [contradiction | cbn; lia]. }
  assert (Hstep : 0 <= width canvas / INR n).
  { apply Rlt_le, Rdiv_lt_0_compat; assumption. }
  split; [| split; [| split; [| split; [| split]]]].
  - destruct (plot_points h (width canvas / INR n) buffer true 0) as (pts & Hplot & Hpts).
    eexists. split; [| split; [| split]].
    + unfold drawWaveform. cbn [negb]. rewrite lit_Z, <- INR_IZR_INZ. fold n.
      rewrite num_div_ok by lra. cbn [bind].
      replace (lit 0) with 0 by (reals; lra). fold h. rewrite Hplot. cbn [bind].
      rewrite num_div_ok by (reals; lra). cbn [bind]. reflexivity.
    + cbn [app path_points].
      assert (Hsplit : forall a b : list (drawing R),
                path_points (a ++ b) = path_points a ++ path_points b).
      { intros a b. induction a as [| c a IHa]; [reflexivity |].
        destruct c; cbn [app path_points]; rewrite ?IHa; reflexivity. }
      rewrite Hsplit, Hpts. cbn [path_points]. fold n.
      replace (lit 2) with 2 by (reals; lra). reflexivity.
    + cbn [app path_points].
      assert (Hsplit : forall a b : list (drawing R),
                path_points (a ++ b) = path_points a ++ path_points b).
      { intros a b. induction a as [| c a IHa]; [reflexivity |].
        destruct c; cbn [app path_points]; rewrite ?IHa; reflexivity. }
      rewrite Hsplit, Hpts. cbn [path_points]. fold n.
      apply Forall_app. split.
      * apply Forall_forall. intros [x y] Hin. cbn [fst snd].
        pose proof (in_combine_l _ _ _ _ Hin) as Hx.
        pose proof (in_combine_r _ _ _ _ Hin) as Hy.
        split.
        -- destruct (@abscissae_bounds _ n n x Hstep Hx (le_n n)) as [Hx0 Hx1].
           split; [exact Hx0 |].
           replace (width canvas) with (INR n * (width canvas / INR n)) by (field; lra).
           exact Hx1.
        -- apply in_map_iff in Hy as (sample & <- & _).
           unfold sample_y. apply clamp_range. unfold h. lra.
      * constructor; [| constructor]. cbn [fst snd].
        replace (lit 2) with 2 by (reals; lra). unfold h. lra.
    + apply in_or_app. right. apply in_or_app. right. cbn [In]. auto.
  - unfold sample_y. replace (h / 2 + (128 - 128) / 128 * h) with (h / 2) by lra.
    apply clamp_inside. unfold h. lra.
  - intros sample Hs. apply IZR_le in Hs. unfold sample_y, clamp.
    assert (Hy : h <= h / 2 + (IZR sample - 128) / 128 * h) by (unfold h; nra).
    rewrite Rmin_left by exact Hy. apply Rmax_right. unfold h. lra.
  - intros sample Hs. apply IZR_le in Hs. unfold sample_y, clamp.
    assert (Hy : h / 2 + (IZR sample - 128) / 128 * h <= 0) by (unfold h; nra).
    rewrite Rmin_right by (unfold h in *; lra). apply Rmax_left. exact Hy.
  - reflexivity.
  - reflexivity.
Qed.

Lemma drawWaveform_stays_in_canvas_witness :
  exists calls,
    drawWaveform (Some (waveformCanvas (num := R) 0 0 600 120)) (Some 6%nat) true true
                 [0%Z; 128%Z; 255%Z] = Ok calls /\
    Forall (fun p => 0 <= fst p <= width (waveformCanvas (num := R) 0 0 600 120) /\
                     0 <= snd p <= height (waveformCanvas (num := R) 0 0 600 120))
           (path_points calls).
Proof.
  assert (Hw : 0 < width (waveformCanvas (num := R) 0 0 600 120))
    by (cbn [width waveformCanvas]; reals; lra).
  assert (Hh : 0 < height (waveformCanvas (num := R) 0 0 600 120))
    by (cbn [height waveformCanvas]; reals; lra).
  assert (Hne : [0%Z; 128%Z; 255%Z] <> []) by discriminate.
  destruct (@drawWaveform_stays_in_canvas _ 6%nat true _ Hw Hh Hne)
    as ((calls & H1 & _ & H2 & _) & _).
  exists calls. split; assumption.
Defined.

(** * Runs on binary64

    The same definitions evaluated on the kernel's floats, the numbers the
    browser computes with. *)

(** At (0.9, 0.9) the interpolated formants lie in the intervals proved for
    the reals; the first one exceeds 283.5. *)
Example float_formants_at_beet :
  match interpolateFormants (num := float) (lit 0.9) (lit 0.9) with
  | Ok [f1; f2; f3] =>
      num_ltb (lit 283.5) f1 && num_ltb (lit 283.85) f1 && num_ltb f1 (lit 283.87) &&
      num_ltb (lit 2260) f2 && num_ltb f2 (lit 2262) &&
      num_ltb (lit 2969) f3 && num_ltb f3 (lit 2971)
  | _ => false
  end = true.
Proof. vm_compute. reflexivity. Qed.

(** The three nearest anchors at (0.9, 0.9), nearest first. *)
Example float_nearest_at_beet :
  map (@name float) (nearest (lit 0.9) (lit 0.9)) = ["i"%string; "I"%string; "e"%string].
Proof. vm_compute. reflexivity. Qed.

(** The recompute pass at (0.9, 0.9), neutral gender and quality, hands each
    of the three filters Q = 12.5. *)
Example float_Q_at_beet :
  match updateVowel (running (num := float) (lit 0) (lit 0.9) (lit 0.9) (lit 0) (lit 0) (lit 25)) with
  | Ok (_, calls) =>
      forallb (fun fq => PrimFloat.eqb (snd fq) (lit 12.5)) (formantOutput calls) &&
      Nat.eqb (List.length (formantOutput calls)) 3
  | Err _ => false
  end = true.
Proof. vm_compute. reflexivity. Qed.

(** The gender scale factor at [g = 1] is the double 1.18. *)
Example float_scale_at_one :
  scaleFormantsForGender (num := float) [lit 1] (lit 1) = [lit 1.18].
Proof. vm_compute. reflexivity. Qed.

(** In binary64 the quotient follows the closed form up to rounding only:
    at 2290 Hz and neutral quality it falls just below 12.5. *)
Example float_Q_rounding :
  match num_div (num := float) (lit 2290) (calculateBandwidth (lit 2290) (lit 0)) with
  | Ok Q => num_ltb Q (lit 12.5) && num_ltb (lit 12.499999) Q
  | Err _ => false
  end = true.
Proof. vm_compute. reflexivity. Qed.

(** With the gender factor -5.555555555555556 the gender scale is zero in
    binary64: every centre frequency is 0 and every Q is NaN. *)
Example float_zero_frequency :
  match updateVowel (running (num := float) (lit 0) (lit 0.5) (lit 0.5)
                       (PrimFloat.opp (lit 5.555555555555556)) (lit 0) (lit 25)) with
  | Ok (_, calls) =>
      forallb (fun fq => PrimFloat.eqb (fst fq) (lit 0) && PrimFloat.is_nan (snd fq))
              (formantOutput calls) &&
      Nat.eqb (List.length (formantOutput calls)) 3
  | Err _ => false
  end = true.
Proof. vm_compute. reflexivity. Qed.

(** [Math.max] and [Math.min] on binary64: the sign of zero and NaN. *)
Example float_Math_max_min :
  (PrimFloat.is_zero (Math_max (lit 0) (PrimFloat.opp (lit 0))) &&
   negb (PrimFloat.get_sign (Math_max (PrimFloat.opp (lit 0)) (lit 0))) &&
   PrimFloat.get_sign (Math_min (lit 0) (PrimFloat.opp (lit 0))) &&
   PrimFloat.is_nan (Math_max PrimFloat.nan (lit 1)) &&
   PrimFloat.is_nan (Math_min (lit 1) PrimFloat.nan) &&
   PrimFloat.eqb (Math_max (lit 0) (Math_min (lit 100) (lit 130))) (lit 100))%bool = true.
Proof. vm_compute. reflexivity. Qed.

(** A pointer event on a chart of zero width, at its left edge: the
    horizontal position given to the synthesizer is NaN. *)
Example float_pointer_on_empty_rectangle :
  match updateVowelPosition (fun v => v) mounted
          (running (num := float) (lit 0) (lit 0.5) (lit 0.5) (lit 0) (lit 0) (lit 25))
          (Some (chart (lit 10) (lit 20) (lit 0) (lit 200))) (lit 10) (lit 50) with
  | (_, Ok (synth, _)) => PrimFloat.is_nan (vowelX synth)
  | (_, Err _) => false
  end = true.
Proof. vm_compute. reflexivity. Qed.

(** [start] on the object as constructed: the synthesizer runs, and the host
    has seen 27 calls building the graph and 6 calls of the recompute pass. *)
Example float_start :
  match start (constructed (num := float)) (Some {| currentTime := lit 0 |}) with
  | (this, events, None) =>
      (isRunning (core this) && Nat.eqb (List.length events) 33)%bool
  | _ => false
  end = true.
Proof. vm_compute. reflexivity. Qed.

(** The waveform of the samples 0, 128 and 255 on the 600 by 120 canvas:
    the top edge, the centre line and the bottom edge, then the closing
    point. *)
Example float_drawWaveform :
  match drawWaveform (Some (waveformCanvas (num := float) (lit 0) (lit 0) (lit 600) (lit 120)))
          (Some 6%nat) true true [0%Z; 128%Z; 255%Z] with
  | Ok calls =>
      match path_points calls with
      | [(x0, y0); (x1, y1); (x2, y2); (x3, y3)] =>
          (PrimFloat.eqb x0 (lit 0) && PrimFloat.eqb y0 (lit 0) &&
           PrimFloat.eqb x1 (lit 200) && PrimFloat.eqb y1 (lit 60) &&
           PrimFloat.eqb x2 (lit 400) && PrimFloat.eqb y2 (lit 120) &&
           PrimFloat.eqb x3 (lit 600) && PrimFloat.eqb y3 (lit 60))%bool
      | _ => false
      end
  | Err _ => false
  end = true.
Proof. vm_compute. reflexivity. Qed.

(** At (0.5, 0.95), which a pointer at (300, 20) on a chart of 600 by 400
    stores, the anchors i, I, u and ʊ are equally far in exact arithmetic.
    Their rounded distances differ in the last place, those of I and ʊ being
    the smaller, and the program blends I, ʊ and i. *)
Example float_nearest_at_tie :
  map (@name float) (nearest (lit 0.5) (lit 0.95)) = ["I"%string; "ʊ"%string; "i"%string] /\
  match interpolateFormants (num := float) (lit 0.5) (lit 0.95) with
  | Ok [f1; f2; f3] =>
      (float_close (lit 0.000001) f1 (PrimFloat.div (lit 1100) (lit 3)) &&
       float_close (lit 0.000001) f2 (PrimFloat.div (lit 5300) (lit 3)) &&
       float_close (lit 0.000001) f3 (lit 2600))%bool
  | _ => false
  end = true.
Proof. split; vm_compute; reflexivity. Qed.

(** On the 101 by 101 positions (i/100, j/100) of the unit square, and at a
    query point whose squared distance overflows, the comparator of the sort
    orders the rounded distances as [<] does. *)
Example float_comparator_on_grid :
  forallb (fun p => sign_agrees (map (@dist float) (distances (fst p) (snd p))))
          ((PrimFloat.of_uint63 (Uint63.of_Z (10 ^ 18)) *
            PrimFloat.of_uint63 (Uint63.of_Z (10 ^ 18)) *
            (PrimFloat.of_uint63 (Uint63.of_Z (10 ^ 18)) *
             PrimFloat.of_uint63 (Uint63.of_Z (10 ^ 18))) *
            (PrimFloat.of_uint63 (Uint63.of_Z (10 ^ 18)) *
             PrimFloat.of_uint63 (Uint63.of_Z (10 ^ 18)) *
             (PrimFloat.of_uint63 (Uint63.of_Z (10 ^ 18)) *
              PrimFloat.of_uint63 (Uint63.of_Z (10 ^ 18)))) *
            PrimFloat.of_uint63 (Uint63.of_Z (10 ^ 18)) *
            PrimFloat.of_uint63 (Uint63.of_Z (10 ^ 18)), lit 0.5)%float
           :: grid 100) = true.
Proof. vm_compute. reflexivity. Qed.

(** On the 21 by 21 positions (i/20, j/20) of the unit square: the three
    normalised weights are positive, do not increase and sum to one within
    1e-12, and the interpolated formants lie within the catalog ranges, in
    increasing order. *)
Example float_interpolation_on_grid :
  forallb (fun p =>
             match normalizedWeights (fst p) (snd p), interpolateFormants (fst p) (snd p) with
             | Ok [n0; n1; n2], Ok [f1; f2; f3] =>
                 (float_close (lit 1e-12) (n0 + n1 + n2) (lit 1) &&
                  PrimFloat.ltb (lit 0) n2 && PrimFloat.leb n2 n1 && PrimFloat.leb n1 n0 &&
                  PrimFloat.leb (lit 270) f1 && PrimFloat.leb f1 (lit 860) &&
                  PrimFloat.leb (lit 840) f2 && PrimFloat.leb f2 (lit 2290) &&
                  PrimFloat.leb (lit 1690) f3 && PrimFloat.leb f3 (lit 3010) &&
                  PrimFloat.ltb f1 f2 && PrimFloat.ltb f2 f3)%float%bool
             | _, _ => false
             end)
          (grid 20) = true.
Proof. vm_compute. reflexivity. Qed.

(** For every two positions [v1 <= v2] of the gender slider, which reports
    0 to 200 and sends [v / 100]: the scale does not decrease, it increases
    when the positions differ, by no more than 0.25 per unit within 1e-12,
    and it lies between 1 and 1.43. *)
Example float_gender_scale_on_slider :
  forallb (fun v1 =>
     forallb (fun v2 =>
        let g1 := PrimFloat.div v1 (lit 100) in
        let g2 := PrimFloat.div v2 (lit 100) in
        match scaleFormantsForGender [lit 1] g1, scaleFormantsForGender [lit 1] g2 with
        | [s1], [s2] =>
            (PrimFloat.eqb s1 (float_gender_scale g1) &&
             implb (PrimFloat.leb v1 v2)
               (PrimFloat.leb s1 s2 &&
                implb (PrimFloat.ltb v1 v2) (PrimFloat.ltb s1 s2) &&
                PrimFloat.leb (s2 - s1) (lit 0.25 * (g2 - g1) + lit 1e-12) &&
                PrimFloat.leb (lit 1) s1 && PrimFloat.leb s2 (lit 1.43)))%float%bool
        | _, _ => false
        end)
     (slider 0 200))
  (slider 0 200) = true.
Proof. vm_compute. reflexivity. Qed.

(** For every position [v] of the quality slider, which reports 0 to 100
    and sends [(v - 50) / 50], at the position (0.5, 0.5) and each of the
    gender factors 0, 1 and 2: every Q handed to the filters lies within
    1e-12 of the closed form and between 8.33 and 17.86, and from one
    position to the next it falls. *)
Example float_Q_on_slider :
  forallb (fun g =>
     forallb (fun v =>
        let Qs := fun v =>
          match updateVowel (running (lit 0) (lit 0.5) (lit 0.5) g
                               (PrimFloat.div (PrimFloat.sub v (lit 50)) (lit 50)) (lit 25)) with
          | Ok (_, calls) => map snd (formantOutput calls)
          | Err _ => []
          end in
        let q := PrimFloat.div (PrimFloat.sub v (lit 50)) (lit 50) in
        (Nat.eqb (List.length (Qs v)) 3 &&
         forallb (fun Q => float_close (lit 1e-12) Q (float_closed_form_Q q) &&
                           PrimFloat.leb (lit 8.33) Q && PrimFloat.leb Q (lit 17.86) &&
                           forallb (fun Q' => PrimFloat.ltb Q' Q) (Qs (v + lit 1)%float))
                 (Qs v))%bool)
     (slider 0 99))
  [lit 0; lit 1; lit 2] = true.
Proof. vm_compute. reflexivity. Qed.

(** A pointer moved over a chart shown 602 by 401.3 pixels large at (10.5,
    20.25), from 10 pixels outside its left and top edges to 10 pixels
    outside the opposite ones: the position given to the synthesizer lies in
    the unit square, within 1e-12 of the pointer's relative position clamped
    to the rectangle. *)
Example float_pointer_on_chart :
  let c := chart (lit 10.5) (lit 20.25) (lit 602) (lit 401.3) in
  let clamp01 := fun v : float =>
    if PrimFloat.ltb v (lit 0) then lit 0 else if PrimFloat.ltb (lit 1) v then lit 1 else v in
  forallb (fun i =>
     forallb (fun j =>
        let cx := (rect_left c + (i - lit 10))%float in
        let cy := (rect_top c + (j * lit 7 - lit 10))%float in
        match updateVowelPosition (fun v => v) mounted (initial (num := float)) (Some c) cx cy with
        | (_, Ok (s, _)) =>
            (PrimFloat.leb (lit 0) (vowelX s) && PrimFloat.leb (vowelX s) (lit 1) &&
             PrimFloat.leb (lit 0) (vowelY s) && PrimFloat.leb (vowelY s) (lit 1) &&
             float_close (lit 1e-12) (vowelX s) (clamp01 ((cx - rect_left c) / rect_width c)) &&
             float_close (lit 1e-12) (vowelY s)
               (clamp01 (lit 1 - (cy - rect_top c) / rect_height c)))%float%bool
        | _ => false
        end)
     (slider 0 60))
  (slider 0 622) = true.
Proof. vm_compute. reflexivity. Qed.

(** The sign of a difference tells which number is the larger on binary64
    also where rounding, the two zeros, infinities or NaN are involved:
    between neighbouring doubles, between the smallest positive doubles,
    and when the difference of two infinities is NaN. *)
Example float_sign_of_difference :
  sign_agrees
    [lit 0; PrimFloat.opp (lit 0); lit 1; PrimFloat.next_up (lit 1); PrimFloat.next_down (lit 1);
     PrimFloat.next_up (lit 0); PrimFloat.next_up (PrimFloat.next_up (lit 0));
     PrimFloat.next_down (lit 0); lit 0.1; PrimFloat.next_up (lit 0.1);
     lit 0.40311288741492746; PrimFloat.next_up (lit 0.40311288741492746);
     PrimFloat.next_down PrimFloat.infinity; PrimFloat.infinity; PrimFloat.neg_infinity;
     PrimFloat.nan] = true.
Proof. vm_compute. reflexivity. Qed.
